(** * braindecode: window index management and cropped inference

    A shallow embedding of
      - [braindecode/datasets/base.py]      (WindowsDataset),
      - [braindecode/datasets/datasets.py]  (MOABBDataset, TUHAbnormal, split,
                                             annotations_from_events, _natural_key),
      - [braindecode/classifier.py]         (EEGClassifier, ThrowAwayIndexLoader),
    together with the few library operations of Python, numpy, pandas and
    torch that these functions call, modelled at the level the code relies
    on them (sequence indexing with negative wrap-around, exceptions,
    dtype of numpy arrays, group-by of a data frame). *)

From Stdlib Require Import ZArith Bool Ascii String List Lia Permutation FinFun.
From Stdlib Require Import DecimalString Sorted.
Import ListNotations.
Open Scope Z_scope.
Set Warnings "-register-all".

(* ================================================================== *)
(** ** Python: exceptions, sequences, dictionaries *)

Module Py.

(** The exception classes the modelled code can raise. *)
Inductive exn : Type :=
| AssertionError
| IndexError
| ValueError
| TypeError
| AttributeError
| KeyError
| NameError.

(** A computation that returns a value or raises. *)
Inductive result (A : Type) : Type :=
| Ok (a : A)
| Raise (e : exn).
Arguments Ok {A} a.
Arguments Raise {A} e.

Definition bind {A B : Type} (m : result A) (k : A -> result B) : result B :=
  match m with
  | Ok a => k a
  | Raise e => Raise e
  end.

Notation "x <- m ;; k" := (bind m (fun x => k))
  (at level 61, m at next level, right associativity).
Notation "' p <- m ;; k" := (bind m (fun p => k))
  (at level 61, p pattern, m at next level, right associativity).

Definition is_ok {A : Type} (m : result A) : bool :=
  match m with Ok _ => true | Raise _ => false end.

(** [assert cond]: raises [AssertionError] when [cond] is false. *)
Definition assert (cond : bool) : result unit :=
  if cond then Ok tt else Raise AssertionError.

(** [seq[i]] for a list, a tuple, a numpy array or a positional pandas
    indexer: a negative [i] counts from the end, anything outside
    [-len, len) raises [IndexError]. *)
Definition py_index {A : Type} (l : list A) (i : Z) : result A :=
  let n := Z.of_nat (length l) in
  let j := if i <? 0 then i + n else i in
  if (j <? 0) || (n <=? j) then Raise IndexError
  else match nth_error l (Z.to_nat j) with
       | Some a => Ok a
       | None => Raise IndexError
       end.

(** [list(range(start, stop))]. *)
Definition py_range (start stop : Z) : list Z :=
  map (fun k => start + Z.of_nat k) (seq 0 (Z.to_nat (stop - start))).

(** [list(enumerate(l))]. *)
Fixpoint enumerate_from {A : Type} (i : Z) (l : list A) : list (Z * A) :=
  match l with
  | [] => []
  | a :: l' => (i, a) :: enumerate_from (i + 1) l'
  end.

Definition enumerate {A : Type} (l : list A) : list (Z * A) :=
  enumerate_from 0 l.

(** [seq[:-1]]. *)
Definition slice_but_last {A : Type} (l : list A) : list A := removelast l.

(** [for e in l: body] over a state, where the body may raise. *)
Fixpoint for_each {A S : Type} (body : S -> A -> result S) (l : list A) (s : S)
  : result S :=
  match l with
  | [] => Ok s
  | a :: l' => s' <- body s a ;; for_each body l' s'
  end.

(** [[f(e) for e in l]] where [f] may raise. *)
Fixpoint map_m {A B : Type} (f : A -> result B) (l : list A) : result (list B) :=
  match l with
  | [] => Ok []
  | a :: l' => b <- f a ;; bs <- map_m f l' ;; Ok (b :: bs)
  end.

End Py.
Import Py.

(* ================================================================== *)
(** ** numpy: arrays of integers with their dtype *)

Module Np.

(** Only the two dtypes that arise from lists of Python ints matter:
    a non-empty list of ints converts to an int64 array, the empty list
    converts to a float64 array. *)
Inductive dtype : Type := int64 | float64.

(** A one-dimensional array; a float64 array of whole numbers stores them
    as integers (the code never produces fractional values). *)
Record ndarray : Type := mk_ndarray { nd_dtype : dtype; nd_data : list Z }.

(** [np.asarray(l)] for a list of Python ints. *)
Definition asarray (l : list Z) : ndarray :=
  match l with
  | [] => mk_ndarray float64 []
  | _ => mk_ndarray int64 l
  end.

(** [np.insert(arr, 0, [v])]: the result has the dtype of [arr]; the
    inserted values are cast to it. *)
Definition insert_front (arr : list Z) (v : Z) : ndarray :=
  let a := asarray arr in
  mk_ndarray (nd_dtype a) (v :: nd_data a).

(** A scalar read from an array keeps the array's dtype
    (numpy.int64 or numpy.float64). *)
Record scalar : Type := mk_scalar { sc_dtype : dtype; sc_val : Z }.

(** [arr[i]]. *)
Definition getitem (a : ndarray) (i : Z) : result scalar :=
  v <- py_index (nd_data a) i ;;
  Ok (mk_scalar (nd_dtype a) v).

(** [list(range(start, stop))] where [start] is a numpy scalar and [stop] a
    Python int: [range] calls [__index__] on its arguments, which
    numpy.float64 does not have. *)
Definition range_from_scalar (start : scalar) (stop : Z) : result (list Z) :=
  match sc_dtype start with
  | int64 => Ok (py_range (sc_val start) stop)
  | float64 => Raise TypeError
  end.

Definition is_empty {A : Type} (l : list A) : bool :=
  match l with [] => true | _ => false end.

(** [np.concatenate(parts)] for a list of lists of Python ints: raises
    [ValueError] on an empty list of parts; an empty part is a float64
    array and promotes the result to float64. *)
Definition concatenate (parts : list (list Z)) : result ndarray :=
  match parts with
  | [] => Raise ValueError
  | _ => Ok (mk_ndarray (if existsb is_empty parts then float64 else int64)
                        (concat parts))
  end.

End Np.

(* ================================================================== *)
(** ** pandas: the recording-level metadata table *)

Module Pd.

(** A cell of the metadata table, also the type of split names. *)
Inductive cell : Type :=
| CInt (z : Z)
| CStr (s : string)
| CBool (b : bool).

(** Equality of the values of one column.  The columns the constructors
    build hold values of one type each; a column that mixes booleans and
    integers, where pandas takes [True] and [1] for the same key, is outside
    this model. *)
Definition cell_eqb (a b : cell) : bool :=
  match a, b with
  | CInt x, CInt y => x =? y
  | CStr s, CStr t => String.eqb s t
  | CBool x, CBool y => Bool.eqb x y
  | _, _ => false
  end.

Definition rank (a : cell) : Z :=
  match a with CBool _ => 0 | CInt _ => 1 | CStr _ => 2 end.

(** The order in which group keys are sorted. *)
Definition cell_leb (a b : cell) : bool :=
  match a, b with
  | CInt x, CInt y => x <=? y
  | CStr s, CStr t => String.leb s t
  | CBool x, CBool y => implb x y
  | _, _ => rank a <=? rank b
  end.

(** A data frame: the index labels of its rows and its named columns. *)
Record DataFrame : Type := mk_df {
  df_index : list Z;
  df_columns : list (string * list cell)
}.

(** [pd.DataFrame(rows, columns=names)] with three columns: the index is
    the default [RangeIndex(0, len(rows))]. *)
Definition range_index {A : Type} (rows : list A) : list Z :=
  py_range 0 (Z.of_nat (length rows)).

(** [key in df]: membership in the column names; [None] is no column. *)
Definition df_contains (df : DataFrame) (key : option string) : bool :=
  match key with
  | None => false
  | Some k => existsb (String.eqb k) (map fst (df_columns df))
  end.

Fixpoint lookup_column (cols : list (string * list cell)) (k : string)
  : option (list cell) :=
  match cols with
  | [] => None
  | (c, vals) :: cols' => if String.eqb c k then Some vals else lookup_column cols' k
  end.

(** [df[k]]. *)
Definition df_getitem (df : DataFrame) (k : string) : result (list cell) :=
  match lookup_column (df_columns df) k with
  | Some vals => Ok vals
  | None => Raise KeyError
  end.

(** The cells of the row at position [i]. *)
Definition df_row (df : DataFrame) (i : nat) : list (string * cell) :=
  flat_map (fun cv : string * list cell =>
              match nth_error (snd cv) i with
              | Some v => [(fst cv, v)]
              | None => []
              end) (df_columns df).

(** Distinct values in order of first appearance. *)
Fixpoint unique (l : list cell) : list cell :=
  match l with
  | [] => []
  | a :: l' => a :: filter (fun b => negb (cell_eqb b a)) (unique l')
  end.

Fixpoint insert_sorted (a : cell) (l : list cell) : list cell :=
  match l with
  | [] => [a]
  | b :: l' => if cell_leb a b then a :: l else b :: insert_sorted a l'
  end.

Definition sort_cells (l : list cell) : list cell :=
  fold_right insert_sorted [] l.

(** The index labels of the rows whose value is [key]. *)
Definition labels_of (index : list Z) (vals : list cell) (key : cell) : list Z :=
  map fst (filter (fun lv : Z * cell => cell_eqb (snd lv) key) (combine index vals)).

(** [df.groupby(k)] as iterated: one [(group_name, group.index)] per distinct
    value, group names sorted, the labels of a group in row order. *)
Definition groupby (df : DataFrame) (k : option string)
  : result (list (cell * list Z)) :=
  match k with
  | None => Raise TypeError
  | Some k =>
      vals <- df_getitem df k ;;
      Ok (map (fun key => (key, labels_of (df_index df) vals key))
              (sort_cells (unique vals)))
  end.

(** [pd.concat(frames)] for frames with the same columns in the same order. *)
Fixpoint append_columns (a b : list (string * list cell)) : list (string * list cell) :=
  match a, b with
  | (c, va) :: a', (_, vb) :: b' => (c, va ++ vb) :: append_columns a' b'
  | _, _ => a
  end.

Definition concat_frames (frames : list DataFrame) : DataFrame :=
  match frames with
  | [] => mk_df [] []
  | f :: fs =>
      fold_left (fun acc g => mk_df (df_index acc ++ df_index g)
                                    (append_columns (df_columns acc) (df_columns g)))
                fs f
  end.

(** A Python dict keyed by cells: insertion ordered, [d[k] = v] replaces the
    value of an existing key in place and appends a new key. *)
Fixpoint dict_set {V : Type} (d : list (cell * V)) (k : cell) (v : V)
  : list (cell * V) :=
  match d with
  | [] => [(k, v)]
  | (k', v') :: d' =>
      if cell_eqb k' k then (k', v) :: d' else (k', v') :: dict_set d' k v
  end.

Definition dict_of_items {V : Type} (items : list (cell * V)) : list (cell * V) :=
  fold_left (fun d kv => dict_set d (fst kv) (snd kv)) items [].

End Pd.

(* ================================================================== *)
(** ** braindecode/datasets: base.py and datasets.py *)

Module Datasets.
Import Np Pd.

Section Model.

(** [raw]: a continuous recording (mne.Raw); [signal]: the data of one
    window.  Their numerical content plays no role in index management. *)
Context {raw signal : Type}.

(** One entry of the [mne.Epochs] object a windower returns.  An Epochs
    object keeps its data, its [events] array (one row of three integers per
    epoch, the last one being the event code) and its [metadata] frame (here
    the three positional columns) aligned, one entry per epoch. *)
Record epoch : Type := mk_epoch {
  ep_data : signal;
  ep_event : Z * Z * Z;
  ep_metadata : Z * Z * Z
}.

(** [windows.events] and [windows.metadata]. *)
Definition events (windows : list epoch) : list (Z * Z * Z) := map ep_event windows.
Definition metadata (windows : list epoch) : list (Z * Z * Z) := map ep_metadata windows.

(** base.py, class BaseDataset.  [info] is the recording's metadata row as
    named values; [target in self.info] tests the names. *)
Record BaseDataset : Type := mk_BaseDataset {
  base_raw : raw;
  base_info : list (string * cell);
  base_target : option string
}.

Definition BaseDataset_init (r : raw) (info : list (string * cell))
  (target : option string) : result BaseDataset :=
  _ <- match target with
       | Some t => assert (existsb (String.eqb t) (map fst info))
       | None => Ok tt
       end ;;
  Ok (mk_BaseDataset r info target).

(** base.py, class WindowsDataset. *)
Record WindowsDataset : Type := mk_WindowsDataset {
  windows : list epoch;
  wd_info : list (string * cell)
}.

(** WindowsDataset.__len__ *)
Definition WindowsDataset_len (self : WindowsDataset) : Z :=
  Z.of_nat (length (events (windows self))).

(** WindowsDataset.__getitem__:
    [target = self.windows.events[:,-1]];
    [info = self.windows.metadata.iloc[index][keys].to_list()];
    [return self.windows[index].get_data().squeeze(0), target[index], info]. *)
Definition WindowsDataset_getitem (self : WindowsDataset) (index : Z)
  : result (signal * Z * list Z) :=
  let target := map (fun ev : Z * Z * Z => snd ev) (events (windows self)) in
  m <- py_index (metadata (windows self)) index ;;
  let info := [fst (fst m); snd (fst m); snd m] in
  w <- py_index (windows self) index ;;
  t <- py_index target index ;;
  Ok (ep_data w, t, info).

(** torch.utils.data.ConcatDataset, extended by its two subclasses with the
    aggregated metadata table [info]. *)
Record ConcatDataset : Type := mk_ConcatDataset {
  datasets : list WindowsDataset;
  cumulative_sizes : list Z;
  info : DataFrame
}.

(** ConcatDataset.cumsum *)
Fixpoint cumsum_from (s : Z) (sequence : list WindowsDataset) : list Z :=
  match sequence with
  | [] => []
  | e :: rest =>
      let l := WindowsDataset_len e in
      (l + s) :: cumsum_from (s + l) rest
  end.

Definition cumsum (sequence : list WindowsDataset) : list Z := cumsum_from 0 sequence.

(** ConcatDataset.__init__ followed by [self.info = info]. *)
Definition ConcatDataset_init (all_windows_ds : list WindowsDataset) (i : DataFrame)
  : result ConcatDataset :=
  _ <- assert (0 <? Z.of_nat (length all_windows_ds)) ;;
  Ok (mk_ConcatDataset all_windows_ds (cumsum all_windows_ds) i).

(** ConcatDataset.__len__ *)
Definition ConcatDataset_len (self : ConcatDataset) : Z :=
  last (cumulative_sizes self) 0.

(** What [dataset.get_data(subject_ids)] of moabb returns: a dict of
    subjects, each a dict of sessions, each a dict of runs. *)
Definition moabb_data : Type := list (cell * list (cell * list (cell * raw))).

(** _fetch_and_unpack_moabb_data *)
Definition _fetch_and_unpack_moabb_data (data : moabb_data) : list raw * DataFrame :=
  let rows :=
    flat_map (fun subj : cell * list (cell * list (cell * raw)) =>
      flat_map (fun sess : cell * list (cell * raw) =>
        map (fun run : cell * raw => (snd run, (fst subj, fst sess, fst run)))
            (snd sess))
        (snd subj))
      data in
  let raws := map fst rows in
  let subject_ids := map (fun r : raw * (cell * cell * cell) => fst (fst (snd r))) rows in
  let session_ids := map (fun r : raw * (cell * cell * cell) => snd (fst (snd r))) rows in
  let run_ids := map (fun r : raw * (cell * cell * cell) => snd (snd r)) rows in
  (raws, mk_df (range_index rows)
               [("subject"%string, subject_ids);
                ("session"%string, session_ids);
                ("run"%string, run_ids)]).

(** MOABBDataset.__init__, from the fetched data on. *)
Definition MOABBDataset_init (windower : BaseDataset -> list epoch) (data : moabb_data)
  : result ConcatDataset :=
  let (raws, i) := _fetch_and_unpack_moabb_data data in
  let all_windows_ds :=
    map (fun ir : Z * raw =>
           let base_ds := mk_BaseDataset (snd ir) (df_row i (Z.to_nat (fst ir))) None in
           mk_WindowsDataset (windower base_ds) (base_info base_ds))
        (enumerate raws) in
  ConcatDataset_init all_windows_ds i.

(** One .edf file of the TUH corpus with what the constructor reads from its
    path and header: a file in the layout of the corpus, whose path names
    normal or abnormal and train or eval and whose header holds the age and
    the gender. *)
Record edf_file : Type := mk_edf_file {
  f_raw : raw;
  f_age : Z;
  f_pathological : bool;
  f_gender : string;
  f_session : string
}.

(** TUHAbnormal.__init__, from the sorted list of files on.  When no file
    was found, the assertion of [read_all_file_names] fails while it builds
    its message, which names the undefined [path]: a [NameError]. *)
Definition TUHAbnormal_init (windower : BaseDataset -> list epoch)
  (all_file_paths : list edf_file) (subject_ids : option (list Z)) (target : string)
  : result ConcatDataset :=
  _ <- (if 0 <? Z.of_nat (length all_file_paths) then Ok tt else Raise NameError) ;;
  let subject_ids :=
    match subject_ids with
    | None => py_range 0 (Z.of_nat (length all_file_paths))
    | Some ids => ids
    end in
  acc <- for_each
    (fun (acc : list WindowsDataset * list DataFrame) subject_id =>
       f <- py_index all_file_paths subject_id ;;
       let i := mk_df [subject_id]
                  [("age"%string, [CInt (f_age f)]);
                   ("pathological"%string, [CBool (f_pathological f)]);
                   ("gender"%string, [CStr (f_gender f)]);
                   ("session"%string, [CStr (f_session f)]);
                   ("subject"%string, [CInt subject_id])] in
       base_ds <- BaseDataset_init (f_raw f) (df_row i 0) (Some target) ;;
       let windows_ds := mk_WindowsDataset (windower base_ds) (base_info base_ds) in
       Ok (fst acc ++ [windows_ds], snd acc ++ [i]))
    subject_ids ([], []) ;;
  ConcatDataset_init (fst acc) (concat_frames (snd acc)).

(** torch.utils.data.Subset: a view of a dataset through a sequence of
    indices. *)
Record Subset : Type := mk_Subset {
  sub_dataset : ConcatDataset;
  sub_indices : ndarray
}.

(** _supercrop_ids_of_windows *)
Definition _supercrop_ids_of_windows (cumulative_sizes : list Z) (windows_is : list Z)
  : result ndarray :=
  let i_stops := cumulative_sizes in
  let i_starts := insert_front (slice_but_last cumulative_sizes) 0 in
  i_per_window <- for_each
    (fun (i_per_window : list (list Z)) i_window =>
       start <- getitem i_starts i_window ;;
       stop <- py_index i_stops i_window ;;
       r <- range_from_scalar start stop ;;
       Ok (i_per_window ++ [r]))
    windows_is [] ;;
  concatenate i_per_window.

(** _windows_dataset_ids_to_supercrop_ids *)
Definition _windows_dataset_ids_to_supercrop_ids
  (dataset_ids : list (cell * list Z)) (cumulative_sizes : list Z)
  : result (list (cell * ndarray)) :=
  for_each
    (fun (supercrop_ids : list (cell * ndarray)) (item : cell * list Z) =>
       this_supercrop_ids <- _supercrop_ids_of_windows cumulative_sizes (snd item) ;;
       Ok (dict_set supercrop_ids (fst item) this_supercrop_ids))
    dataset_ids [].

(** _split_ids *)
Definition _split_ids (df : DataFrame) (some_property : option string)
  : result (list (cell * list Z)) :=
  _ <- assert (df_contains df some_property) ;;
  groups <- groupby df some_property ;;
  Ok (fold_left (fun split_ids (g : cell * list Z) => dict_set split_ids (fst g) (snd g))
                groups []).

Definition is_none {A : Type} (o : option A) : bool :=
  match o with None => true | Some _ => false end.

(** MOABBDataset.split and TUHAbnormal.split (the same body in both
    classes). *)
Definition split (self : ConcatDataset) (some_property : option string)
  (split_ids : option (list (list Z))) : result (list (cell * Subset)) :=
  _ <- assert (is_none split_ids || is_none some_property) ;;
  split_ids <- match split_ids with
               | None => _split_ids (info self) some_property
               | Some l =>
                   Ok (dict_of_items
                         (map (fun it : Z * list Z => (CInt (fst it), snd it)) (enumerate l)))
               end ;;
  supercrop_ids <- _windows_dataset_ids_to_supercrop_ids split_ids (cumulative_sizes self) ;;
  Ok (dict_of_items
        (map (fun it : cell * ndarray => (fst it, mk_Subset self (snd it))) supercrop_ids)).

End Model.

Arguments epoch : clear implicits.
Arguments WindowsDataset : clear implicits.
Arguments ConcatDataset : clear implicits.
Arguments Subset : clear implicits.
Arguments BaseDataset : clear implicits.
Arguments edf_file : clear implicits.
Arguments moabb_data : clear implicits.

End Datasets.

(* ================================================================== *)
(** ** braindecode/classifier.py *)

Module Classifier.

(** Element types of torch tensors. *)
Inductive torch_dtype : Type := float32 | float64 | int32 | int64.

Section Model.

(** [row]: one entry along the first axis of an array (a window's signal, a
    label, an index, a row of class probabilities), kept abstract.
    [cast dt r]: the entry converted to element type [dt].
    [item dt r]: what indexing a tensor of type [dt] yields for entry [r]. *)
Context {row : Type}.
Variable cast : torch_dtype -> row -> row.

(** The Python objects that travel in a batch. *)
Inductive value : Type :=
| Tensor (dt : torch_dtype) (rows : list row)   (* torch.Tensor *)
| Ndarray (rows : list row)                     (* numpy array: no [type] attribute *)
| PySeq (items : list value).                   (* list or tuple *)

Variable item : torch_dtype -> row -> value.

(** A batch as the underlying loader yields it: a sequence of elements. *)
Definition batch : Type := list value.

(** [hasattr(x, 'type')] *)
Definition hasattr_type (x : value) : bool :=
  match x with Tensor _ _ => true | _ => false end.

(** [x.type(dt)] *)
Definition type_ (x : value) (dt : torch_dtype) : result value :=
  match x with
  | Tensor _ rows => Ok (Tensor dt (map (cast dt) rows))
  | _ => Raise AttributeError
  end.

(** [x.cpu().numpy()]: the rows of the tensor as a numpy array. *)
Definition cpu_numpy (x : value) : result (list row) :=
  match x with
  | Tensor _ rows => Ok rows
  | _ => Raise AttributeError
  end.

(** [x[k]] *)
Definition value_getitem (x : value) (k : Z) : result value :=
  match x with
  | PySeq items => py_index items k
  | Tensor dt rows => r <- py_index rows k ;; Ok (item dt r)
  | Ndarray rows => r <- py_index rows k ;; Ok (Ndarray [r])
  end.

(** A scoring callback object: its class name, its provenance log
    [supercrop_inds_] when it has that attribute, and [on_train]. *)
Record callback : Type := mk_callback {
  class_name : string;
  supercrop_inds_ : option (list value);
  on_train : bool
}.

(** A callback in a callback list: a temporary built by the
    [_default_callbacks] property on each access, or a reference to a
    long-lived object of the heap. *)
Inductive cb_ref : Type :=
| Fresh (c : callback)
| Ref (r : nat).

(** The part of the classifier instance the modelled methods touch:
    [self.callbacks] ([None] by default), the callback objects it refers to,
    and the attribute [_last_supercrop_inds] (absent or holding a value). *)
Record net : Type := mk_net {
  callbacks : option (list (string * cb_ref));
  heap : list callback;
  _last_supercrop_inds : option value
}.

Definition set_last (self : net) (v : option value) : net :=
  mk_net (callbacks self) (heap self) v.

Definition set_heap (self : net) (h : list callback) : net :=
  mk_net (callbacks self) h (_last_supercrop_inds self).

(** EEGClassifier._default_callbacks *)
Definition _default_callbacks : list (string * cb_ref) :=
  [("epoch_timer"%string, Fresh (mk_callback "EpochTimer" None false));
   ("train_loss"%string, Fresh (mk_callback "BatchScoring" None true));
   ("valid_loss"%string, Fresh (mk_callback "BatchScoring" None false));
   ("print_log"%string, Fresh (mk_callback "PrintLog" None false))].

Definition deref (h : list callback) (c : cb_ref) : option callback :=
  match c with
  | Fresh c => Some c
  | Ref r => nth_error h r
  end.

(** The test of the loop in [on_batch_end]:
    [cb.__class__.__name__ == 'CroppedTrialEpochScoring' and
     hasattr(cb, 'supercrop_inds_') and cb.on_train == False]. *)
Definition consumes_provenance (c : callback) : bool :=
  String.eqb (class_name c) "CroppedTrialEpochScoring"
  && match supercrop_inds_ c with Some _ => true | None => false end
  && Bool.eqb (on_train c) false.

Definition selected (h : list callback) (c : cb_ref) : bool :=
  match deref h c with
  | Some c => consumes_provenance c
  | None => false
  end.

(** [cb.supercrop_inds_.append(v)] on a heap object. *)
Fixpoint append_log (h : list callback) (r : nat) (v : value) : list callback :=
  match h, r with
  | [], _ => []
  | c :: h', O =>
      mk_callback (class_name c)
                  (match supercrop_inds_ c with
                   | Some l => Some (l ++ [v])
                   | None => None
                   end)
                  (on_train c) :: h'
  | c :: h', S r' => c :: append_log h' r' v
  end.

Definition append_to (h : list callback) (c : cb_ref) (v : value) : list callback :=
  match c with
  | Fresh _ => h
  | Ref r => append_log h r v
  end.

(** EEGClassifier.on_batch_end *)
Definition on_batch_end (self : net) (training : bool) : result net :=
  if negb training then
    user <- match callbacks self with
            | Some l => Ok l
            | None => Raise TypeError
            end ;;
    let cbs := _default_callbacks ++ user in
    let epoch_cbs := filter (selected (heap self)) (map snd cbs) in
    if 0 <? Z.of_nat (length epoch_cbs) then
      match _last_supercrop_inds self with
      | None => Raise AssertionError
      | Some v =>
          let h := fold_left (fun h cb => append_to h cb v) epoch_cbs (heap self) in
          Ok (set_last (set_heap self h) None)
      end
    else Ok self
  else Ok self.

(** One turn of the loop of ThrowAwayIndexLoader.__iter__: the classifier
    after the stash and the batch that is yielded. *)
Definition loader_step (self : net) (b : batch) : result (net * batch) :=
  unpacked <- match b with
              | [x; y; i] => Ok (set_last self (Some i), x, y)
              | [x; y] => Ok (self, x, y)
              | _ => Raise ValueError
              end ;;
  let self := fst (fst unpacked) in
  let x := snd (fst unpacked) in
  let y := snd unpacked in
  if hasattr_type x then
    x' <- type_ x float32 ;;
    y' <- type_ y int64 ;;
    Ok (self, [x'; y'])
  else Ok (self, [x; y]).

(** What iterating an iterator to its end produces: the batches yielded, the
    classifier afterwards, and the exception that ended the iteration
    early if there was one. *)
Record iteration : Type := mk_iteration {
  emitted : list batch;
  after : net;
  raised : option exn
}.

(** ThrowAwayIndexLoader.__iter__ over the batches of the wrapped loader.
    When a three-element batch raises, it does so in the conversion, after
    its third element has been stored. *)
Fixpoint ThrowAwayIndexLoader_iter (self : net) (loader : list batch) : iteration :=
  match loader with
  | [] => mk_iteration [] self None
  | b :: rest =>
      match loader_step self b with
      | Raise e =>
          mk_iteration [] (match b with
                           | [_; _; i] => set_last self (Some i)
                           | _ => self
                           end) (Some e)
      | Ok (self', out) =>
          let it := ThrowAwayIndexLoader_iter self' rest in
          mk_iteration (out :: emitted it) (after it) (raised it)
      end
  end.

(** EEGClassifier.get_iterator; [iterator] stands for the batches of
    [super().get_iterator(dataset, training=training)]. *)
Definition get_iterator (self : net) (iterator : list batch) (drop_index : bool)
  : iteration :=
  if drop_index then ThrowAwayIndexLoader_iter self iterator
  else mk_iteration iterator self None.

(** [np.concatenate(parts)] for arrays of rows. *)
Definition concatenate_rows (parts : list (list row)) : result (list row) :=
  match parts with
  | [] => Raise ValueError
  | _ => Ok (concat parts)
  end.

(** The dict returned by [predict_with_supercrop_inds_and_ys]. *)
Record prediction : Type := mk_prediction {
  preds : list row;
  i_supercrop_in_trials : list row;
  i_supercrop_stops : list row;
  supercrop_ys : list row
}.

(** The four lists the loop of the predictor appends to. *)
Record collected : Type := mk_collected {
  c_preds : list (list row);
  c_in_trials : list (list row);
  c_stops : list (list row);
  c_ys : list (list row)
}.

(** The body of the loop of [predict_with_supercrop_inds_and_ys]:
    [for X, y, i in ...]. *)
Definition predict_body (predict_proba : value -> result (list row))
  (acc : collected) (b : batch) : result collected :=
  match b with
  | [X; y; i] =>
      i0 <- value_getitem i 0 ;;
      in_trial <- cpu_numpy i0 ;;
      i2 <- value_getitem i 2 ;;
      stop <- cpu_numpy i2 ;;
      p <- predict_proba X ;;
      ys <- cpu_numpy y ;;
      Ok (mk_collected (c_preds acc ++ [p]) (c_in_trials acc ++ [in_trial])
                       (c_stops acc ++ [stop]) (c_ys acc ++ [ys]))
  | _ => Raise ValueError
  end.

(** EEGClassifier.predict_with_supercrop_inds_and_ys.  The second component
    lists the warnings issued during the call: the method has no statement
    that warns.  [predict_proba] stands for [self.predict_proba], a method
    of skorch; what it does on the tensor of a batch is
    [skorch_predict_proba] below. *)
Definition predict_with_supercrop_inds_and_ys (self : net)
  (predict_proba : value -> result (list row)) (iterator : list batch)
  : result prediction * list string :=
  let it := get_iterator self iterator false in
  (acc <- for_each (predict_body predict_proba) (emitted it)
                   (mk_collected [] [] [] []) ;;
   _ <- match raised it with Some e => Raise e | None => Ok tt end ;;
   p <- concatenate_rows (c_preds acc) ;;
   a <- concatenate_rows (c_in_trials acc) ;;
   s <- concatenate_rows (c_stops acc) ;;
   y <- concatenate_rows (c_ys acc) ;;
   Ok (mk_prediction p a s y),
   []).

(** One element of a dataset as [__getitem__] returns it:
    [(x, y, [i_supercrop_in_trial, i_start_in_trial, i_stop_in_trial])]. *)
Record sample : Type := mk_sample {
  s_x : row;
  s_y : row;
  s_in_trial : row;
  s_start : row;
  s_stop : row
}.

(** torch's default collate function on a list of such elements. *)
Definition collate (samples : list sample) : batch :=
  [Tensor float64 (map s_x samples);
   Tensor int64 (map s_y samples);
   PySeq [Tensor int64 (map s_in_trial samples);
          Tensor int64 (map s_start samples);
          Tensor int64 (map s_stop samples)]].

(** torch's BatchSampler without [drop_last]: [cur] is the batch being
    filled, most recent first. *)
Fixpoint batch_sampler {A : Type} (batch_size : nat) (cur : list A) (l : list A)
  : list (list A) :=
  match l with
  | [] => match cur with [] => [] | _ => [rev cur] end
  | a :: l' =>
      if Nat.eqb (length (a :: cur)) batch_size
      then rev (a :: cur) :: batch_sampler batch_size [] l'
      else batch_sampler batch_size (a :: cur) l'
  end.

(** The batches of a torch DataLoader: [sampled] are the elements of the
    dataset in the order of the sampler (the dataset's own order when the
    loader does not shuffle, a permutation of it otherwise).  torch rejects
    a batch size that is not a positive integer. *)
Definition DataLoader (batch_size : positive) (sampled : list sample) : list batch :=
  map collate (batch_sampler (Pos.to_nat batch_size) [] sampled).

(** skorch's [self.predict_proba(X)] on the input tensor of one batch, of
    rows [rows].  It wraps the tensor in a dataset and passes over it with
    [self.get_iterator(dataset, training=False)], that is with the loader
    settings of the classifier once more: the rows are visited in the order
    [revisit rows] (the rows themselves when the loader does not shuffle, a
    permutation of them when it does) in batches of [batch_size];
    [get_iterator] wraps that loader in ThrowAwayIndexLoader, which converts
    each input to float32; the module is applied to every batch and the
    outputs are concatenated. *)
Definition skorch_predict_proba (module : list row -> result (list row))
  (batch_size : positive) (revisit : list row -> list row) (rows : list row)
  : result (list row) :=
  outs <- map_m (fun chunk => module (map (cast float32) chunk))
                (batch_sampler (Pos.to_nat batch_size) [] (revisit rows)) ;;
  concatenate_rows outs.

End Model.

Arguments value : clear implicits.
Arguments callback : clear implicits.
Arguments cb_ref : clear implicits.
Arguments net : clear implicits.
Arguments iteration : clear implicits.
Arguments prediction : clear implicits.
Arguments collected : clear implicits.
Arguments sample : clear implicits.
Arguments batch : clear implicits.

End Classifier.

(* ================================================================== *)
(** * Vocabulary of the statements *)

Import Np Pd Datasets Classifier.

Section DatasetVocabulary.
Context {signal : Type}.

(** What [__getitem__] returns for the window [w]. *)
Definition window_item (w : epoch signal) : signal * Z * list Z :=
  (ep_data w, snd (ep_event w),
   [fst (fst (ep_metadata w)); snd (fst (ep_metadata w)); snd (ep_metadata w)]).

(** The spec's table lookup: [cumulative_sizes[k]], with
    [cumulative_sizes[-1] = 0]. *)
Definition cumulative_at (cumulative_sizes : list Z) (k : Z) : Z :=
  if k <? 0 then 0 else nth (Z.to_nat k) cumulative_sizes 0.

(** The spec's global index range of recording [k]:
    [[cumulative_sizes[k-1], cumulative_sizes[k])]. *)
Definition recording_range (cumulative_sizes : list Z) (k : Z) : list Z :=
  py_range (cumulative_at cumulative_sizes (k - 1)) (cumulative_at cumulative_sizes k).

(** The three statements of the loop body of [_supercrop_ids_of_windows]
    that compute the range of one recording. *)
Definition window_range (cumulative_sizes : list Z) (i_window : Z) : result (list Z) :=
  start <- getitem (insert_front (slice_but_last cumulative_sizes) 0) i_window ;;
  stop <- py_index cumulative_sizes i_window ;;
  range_from_scalar start stop.

(** The names given to explicit groups: [0, 1, 2, ...]. *)
Definition positional_names {A : Type} (groups : list A) : list cell :=
  map CInt (py_range 0 (Z.of_nat (length groups))).

(** The number of windows of recording [k]. *)
Definition recording_len (ds : list (WindowsDataset signal)) (k : Z) : Z :=
  match nth_error ds (Z.to_nat k) with
  | Some d => WindowsDataset_len d
  | None => 0
  end.

(** The sum of a list of integers. *)
Definition sum_Z (l : list Z) : Z := fold_right Z.add 0 l.

(** [b <= c0 <= c1 <= ...]: the table is non-decreasing from [b] on. *)
Fixpoint chain (b : Z) (cs : list Z) : Prop :=
  match cs with
  | [] => True
  | c :: cs' => b <= c /\ chain c cs'
  end.

(** The range of recording [k] when the first range starts at [b]. *)
Definition range_from_base (b : Z) (cs : list Z) (k : nat) : list Z :=
  py_range (match k with O => b | S k' => nth k' cs 0 end) (nth k cs 0).

End DatasetVocabulary.

Section ClassifierVocabulary.
Context {row : Type}.

(** The classifier after the stash of one batch whose elements after the
    first two are [rest]. *)
Definition stash (self : net row) (rest : list (value row)) : net row :=
  match rest with
  | [i] => set_last self (Some i)
  | _ => self
  end.

(** The callback [c] after [extra] has been appended to its log. *)
Definition logged (c : callback row) (extra : list (value row)) : callback row :=
  mk_callback (class_name c)
              (match supercrop_inds_ c with
               | Some l => Some (l ++ extra)
               | None => None
               end)
              (on_train c).

Definition is_ref (r : nat) (c : cb_ref row) : bool :=
  match c with
  | Ref r' => Nat.eqb r' r
  | Fresh _ => false
  end.

(** [epoch_cbs] of [on_batch_end]: the registered callbacks that are scoped
    to evaluation and consume provenance. *)
Definition epoch_cbs (self : net row) : list (cb_ref row) :=
  match callbacks self with
  | Some user => filter (selected (heap self)) (map snd (_default_callbacks ++ user))
  | None => []
  end.

Definition has_provenance_consumer (self : net row) : bool :=
  negb (is_empty (epoch_cbs self)).

(** How many times heap object [r] is registered as such a callback. *)
Definition registrations (self : net row) (r : nat) : nat :=
  length (filter (is_ref r) (epoch_cbs self)).

(** [predict_proba] on the input tensor of a collated batch. *)
Definition predict_chunk (predict_proba : value row -> result (list row))
  (c : list (sample row)) : result (list row) :=
  predict_proba (Tensor float64 (map s_x c)).

(** Whether a call failed or warned. *)
Definition fails_or_warns {A : Type} (out : result A * list string) : bool :=
  negb (is_ok (fst out)) || negb (is_empty (snd out)).

End ClassifierVocabulary.

(** ** Concrete datasets *)

Module Examples.

(** Window [i] of a recording; the recording itself is represented by its
    number of windows. *)
Definition ex_epoch (i : Z) : epoch unit :=
  mk_epoch tt (100 * i, 0, 1) (i, 10 * i, 10 * i + 10).

Definition ex_windower (b : BaseDataset nat) : list (epoch unit) :=
  map (fun k => ex_epoch (Z.of_nat k)) (seq 0 (base_raw b)).

Definition ex_wd : WindowsDataset unit :=
  mk_WindowsDataset [ex_epoch 0; ex_epoch 1] [].

Definition ex_ds : list (WindowsDataset unit) :=
  [ex_wd; mk_WindowsDataset [ex_epoch 0] []].

Definition ex_info : DataFrame :=
  mk_df [0; 1] [("session"%string, [CStr "train"; CStr "eval"])].

Definition ex_self : ConcatDataset unit := mk_ConcatDataset ex_ds [2; 3] ex_info.

(** One subject, one session, one run: a dataset of a single recording. *)
Definition ex_moabb_single : moabb_data nat :=
  [(CInt 1, [(CStr "session_T", [(CStr "run_0", 3%nat)])])].

(** One subject, two sessions of two and one runs. *)
Definition ex_moabb : moabb_data nat :=
  [(CInt 1, [(CStr "session_T", [(CStr "run_0", 2%nat); (CStr "run_1", 1%nat)]);
             (CStr "session_E", [(CStr "run_0", 3%nat)])])].

(** Three files of the TUH corpus, in sorted order. *)
Definition ex_files : list (edf_file nat) :=
  [mk_edf_file 2%nat 40 false "M" "train";
   mk_edf_file 1%nat 52 true "F" "train";
   mk_edf_file 3%nat 33 false "F" "eval"].

End Examples.
Import Examples.

(** ** Concrete batches *)

Module ClassifierExamples.

(** Rows are integers; a conversion keeps the number. *)
Definition ex_cast (dt : torch_dtype) (z : Z) : Z := z.
Definition ex_item (dt : torch_dtype) (z : Z) : value Z := Tensor dt [z].

(** A model that returns one row per row of its input tensor. *)
Definition ex_predict_proba (X : value Z) : result (list Z) :=
  match X with
  | Tensor _ rows => Ok (map (fun z => 2 * z) rows)
  | _ => Raise TypeError
  end.

(** A module that doubles every row, and the [predict_proba] of a
    classifier whose loader shuffles: its own pass over a batch visits the
    rows in reverse. *)
Definition ex_module (rows : list Z) : result (list Z) :=
  Ok (map (fun z => 2 * z) rows).

Definition ex_shuffling_predict_proba (X : value Z) : result (list Z) :=
  match X with
  | Tensor _ rows => skorch_predict_proba ex_cast ex_module 2 (@rev Z) rows
  | _ => Raise TypeError
  end.

(** A classifier with one evaluation-scoped scoring callback that consumes
    provenance, and nothing stashed. *)
Definition ex_net : net Z :=
  mk_net (Some [("cropped_scoring"%string, Ref 0)])
         [mk_callback "CroppedTrialEpochScoring" (Some []) false]
         None.

Definition x0 : value Z := Ndarray [10; 11].
Definition y0 : value Z := Ndarray [0; 1].
Definition p0 : value Z := PySeq [Ndarray [0; 1]; Ndarray [0; 5]; Ndarray [10; 15]].
Definition x1 : value Z := Ndarray [12].
Definition y1 : value Z := Ndarray [1].

(** A dataset of two windows. *)
Definition s0 : sample Z := mk_sample 10 0 0 0 10.
Definition s1 : sample Z := mk_sample 11 1 1 5 15.

End ClassifierExamples.
Import ClassifierExamples.


(** ** Recording indices counted from the end *)

(** The position a Python index [k] denotes in a sequence of length [n]. *)
Definition normalize_index (n : Z) (k : Z) : Z := if k <? 0 then k + n else k.

(** ** What the constructors build *)

Section ConstructorVocabulary.
Context {raw signal : Type}.

(** The recordings of the fetched data in iteration order, each with its
    subject, session and run. *)
Definition moabb_rows (data : moabb_data raw) : list (raw * (cell * cell * cell)) :=
  flat_map (fun subj : cell * list (cell * list (cell * raw)) =>
    flat_map (fun sess : cell * list (cell * raw) =>
      map (fun run : cell * raw => (snd run, (fst subj, fst sess, fst run)))
          (snd sess))
      (snd subj))
    data.

(** The metadata row of a recording of a MOABB dataset as named values. *)
Definition recording_info (r : cell * cell * cell) : list (string * cell) :=
  [("subject"%string, fst (fst r)); ("session"%string, snd (fst r));
   ("run"%string, snd r)].

(** The WindowsDataset of one recording of a MOABB dataset. *)
Definition moabb_windows (windower : BaseDataset raw -> list (epoch signal))
  (r : raw * (cell * cell * cell)) : WindowsDataset signal :=
  mk_WindowsDataset
    (windower (mk_BaseDataset (fst r) (recording_info (snd r)) None))
    (recording_info (snd r)).

(** The metadata row of a file of the TUH corpus read as subject [k]. *)
Definition tuh_info (k : Z) (f : edf_file raw) : list (string * cell) :=
  [("age"%string, CInt (f_age f));
   ("pathological"%string, CBool (f_pathological f));
   ("gender"%string, CStr (f_gender f));
   ("session"%string, CStr (f_session f));
   ("subject"%string, CInt k)].

(** The WindowsDataset of a file of the TUH corpus read as subject [k]. *)
Definition tuh_windows (windower : BaseDataset raw -> list (epoch signal))
  (target : string) (kf : Z * edf_file raw) : WindowsDataset signal :=
  mk_WindowsDataset
    (windower (mk_BaseDataset (f_raw (snd kf)) (tuh_info (fst kf) (snd kf)) (Some target)))
    (tuh_info (fst kf) (snd kf)).

(** The table of a TUH dataset built from the files [kfs], each read as the
    subject id it is paired with: the ids are the index labels. *)
Definition tuh_table (kfs : list (Z * edf_file raw)) : DataFrame :=
  mk_df (map fst kfs)
        [("age"%string, map (fun kf => CInt (f_age (snd kf))) kfs);
         ("pathological"%string, map (fun kf => CBool (f_pathological (snd kf))) kfs);
         ("gender"%string, map (fun kf => CStr (f_gender (snd kf))) kfs);
         ("session"%string, map (fun kf => CStr (f_session (snd kf))) kfs);
         ("subject"%string, map (fun kf => CInt (fst kf)) kfs)].

(** The subject ids [TUHAbnormal.__init__] reads: all positions of the file
    list when none are given. *)
Definition ids_read (files : list (edf_file raw)) (subject_ids : option (list Z))
  : list Z :=
  match subject_ids with
  | None => py_range 0 (Z.of_nat (length files))
  | Some ids => ids
  end.

(** The columns of the table of a TUH dataset. *)
Definition tuh_columns : list string :=
  ["age"; "pathological"; "gender"; "session"; "subject"]%string.

End ConstructorVocabulary.

(** ** The loader and the hook in a validation loop *)

Section LoopVocabulary.
Context {row : Type}.
Variable cast : torch_dtype -> row -> row.

(** A batch the loader can process: two or three elements, and a target
    that has a [type] attribute whenever the input has one. *)
Definition processable (b : batch row) : bool :=
  match b with
  | [x; y] => negb (hasattr_type x) || hasattr_type y
  | [x; y; _] => negb (hasattr_type x) || hasattr_type y
  | _ => false
  end.

(** The third element of a three-element batch. *)
Definition provenance_of (b : batch row) : list (value row) :=
  match b with
  | [_; _; i] => [i]
  | _ => []
  end.

(** The content of the slot after the loader has processed [loader],
    starting from [slot]. *)
Definition slot_after (slot : option (value row)) (loader : list (batch row))
  : option (value row) :=
  fold_left (fun s b => match provenance_of b with
                        | i :: _ => Some i
                        | [] => s
                        end) loader slot.

(** The provenance a callback registered [n] times receives from a
    stream: the third element of each batch, in order, [n] times each. *)
Definition deliveries (n : nat) (loader : list (batch row)) : list (value row) :=
  flat_map (fun b => flat_map (fun i => repeat i n) (provenance_of b)) loader.

(** The validation loop of the trainer over the loader,
    [for Xi, yi in self.get_iterator(dataset, training=False): ...], which
    after each batch calls the hook [on_batch_end(..., training=False)]. *)
Fixpoint validation_loop (self : net row) (loader : list (batch row))
  : result (net row) :=
  match loader with
  | [] => Ok self
  | b :: rest =>
      st <- loader_step cast self b ;;
      self' <- on_batch_end (fst st) false ;;
      validation_loop self' rest
  end.

End LoopVocabulary.

(* ================================================================== *)
(** * braindecode/datasets/datasets.py: annotations from events *)

(** The module defines [annotations_from_events] itself when the installed
    mne does not provide it.  An events array is a list of rows
    (sample, previous value, event code) of integers; the description of
    the events is [None], a dict from codes to a name or [None], a list or
    1-D array of codes, or a callable from a code to a name or [None]. *)

Module Events.

Definition event : Type := (Z * Z * Z)%type.

(** [e[0]] and [e[2]]. *)
Definition sample_of (e : event) : Z := fst (fst e).
Definition code_of (e : event) : Z := snd e.

(** [np.unique] of a column of integers: its distinct values, ascending. *)
Fixpoint insert_unique (x : Z) (l : list Z) : list Z :=
  match l with
  | [] => [x]
  | y :: l' =>
      if x <? y then x :: l
      else if x =? y then l
      else y :: insert_unique x l'
  end.

Definition np_unique (l : list Z) : list Z := fold_right insert_unique [] l.

(** [str] of an integer. *)
Definition str (z : Z) : string := NilZero.string_of_int (Z.to_int z).

(** A dict keyed by integers, in insertion order. *)
Section IntDict.
Context {V : Type}.

(** [d.get(k)], with [None] for a missing key. *)
Fixpoint get (d : list (Z * V)) (k : Z) : option V :=
  match d with
  | [] => None
  | (k', v) :: d' => if k =? k' then Some v else get d' k
  end.

(** [d[k] = v]: a key already present keeps its place. *)
Fixpoint setitem (d : list (Z * V)) (k : Z) (v : V) : list (Z * V) :=
  match d with
  | [] => [(k, v)]
  | (k', v') :: d' => if k =? k' then (k', v) :: d' else (k', v') :: setitem d' k v
  end.

(** [k in d]. *)
Definition contains (d : list (Z * V)) (k : Z) : bool :=
  match get d k with Some _ => true | None => false end.

(** [d[k]]. *)
Definition getitem (d : list (Z * V)) (k : Z) : result V :=
  match get d k with Some v => Ok v | None => Raise KeyError end.

(** [dict(zip(keys, values))]. *)
Definition dict_zip (keys : list Z) (values : list V) : list (Z * V) :=
  fold_left (fun d kv => setitem d (fst kv) (snd kv)) (combine keys values) [].

End IntDict.

(** What a caller may pass as [event_desc]. *)
Inductive event_desc : Type :=
| DescNone
| DescDict (d : list (Z * option string))
| DescArray (codes : list Z)
| DescNested
| DescCallable (f : Z -> option string)
| DescOther.

(** What [_check_event_description] returns: a dict or a callable. *)
Inductive description : Type :=
| ByDict (d : list (Z * option string))
| ByCallable (f : Z -> option string).

(** _check_event_description.  The values of a dict are names or [None], so
    [_validate_type] accepts them; [DescNested] is an iterable that
    [np.asarray] does not turn into a 1-D array. *)
Definition _check_event_description (event_desc : event_desc) (events : list event)
  : result description :=
  let event_desc :=
    match event_desc with
    | DescNone => DescArray (np_unique (map code_of events))
    | d => d
    end in
  match event_desc with
  | DescDict d => Ok (ByDict d)
  | DescArray codes => Ok (ByDict (dict_zip codes (map (fun c => Some (str c)) codes)))
  | DescNested => Raise ValueError
  | DescCallable f => Ok (ByCallable f)
  | DescNone | DescOther => Raise ValueError
  end.

(** [event_desc.get if isinstance(event_desc, dict) else event_desc]. *)
Definition func_of (event_desc : description) : Z -> option string :=
  match event_desc with
  | ByDict d => fun e => match get d e with Some v => v | None => None end
  | ByCallable f => f
  end.

(** The body of the loop of [_select_events_based_on_id] over the codes. *)
Definition select_step (func : Z -> option string) (event_desc_ : list (Z * string))
  (e : Z) : list (Z * string) :=
  match func e with
  | Some trigger => setitem event_desc_ e trigger
  | None => event_desc_
  end.

(** _select_events_based_on_id *)
Definition _select_events_based_on_id (events : list event) (event_desc : description)
  : list Z * list (Z * string) :=
  let func := func_of event_desc in
  let event_ids := np_unique (map code_of events) in
  let event_desc_ := fold_left (select_step func) event_ids [] in
  let event_sel :=
    map fst (filter (fun ie : Z * event => contains event_desc_ (code_of (snd ie)))
                    (enumerate events)) in
  (event_sel, event_desc_).

Section Annotate.
(** Times are floating-point numbers; [onset_at s] is
    [(s - first_samp) / sfreq] and [zero] is an entry of [np.zeros]. *)
Context {time : Type}.
Variable onset_at : Z -> time.
Variable zero : time.

(** The arguments [Annotations] is called with. *)
Record annotations : Type := mk_annotations {
  onset : list time;
  duration : list time;
  description_ : list string
}.

(** annotations_from_events *)
Definition annotations_from_events (events : list event) (event_desc : event_desc)
  : result annotations :=
  event_desc <- _check_event_description event_desc events ;;
  let (event_sel, event_desc_) := _select_events_based_on_id events event_desc in
  events_sel <- map_m (py_index events) event_sel ;;
  let onsets := map (fun e => onset_at (sample_of e)) events_sel in
  descriptions <- map_m (fun e => getitem event_desc_ (code_of e)) events_sel ;;
  let durations := map (fun _ : event => zero) events_sel in
  Ok (mk_annotations onsets durations descriptions).

End Annotate.

(** The name the docstring gives the events of code [c]: the code as a
    string when no description or a list of codes is given, the entry of
    the dict, the result of the callable; [None] when the events of that
    code are to be ignored. *)
Definition described (event_desc : event_desc) (c : Z) : option string :=
  match event_desc with
  | DescNone => Some (str c)
  | DescDict d => match get d c with Some v => v | None => None end
  | DescArray codes => if existsb (Z.eqb c) codes then Some (str c) else None
  | DescCallable f => f c
  | DescNested | DescOther => None
  end.

(** The events that have a name, each with its name, in the order of the
    events array. *)
Definition named_events (event_desc : event_desc) (events : list event)
  : list (event * string) :=
  flat_map (fun e => match described event_desc (code_of e) with
                     | Some name => [(e, name)]
                     | None => []
                     end) events.

End Events.

(* ================================================================== *)
(** * braindecode/datasets/datasets.py: the natural sorting key *)

(** A string is a list of characters with code points below 256. *)

Module NaturalKey.

(** [\d] of a regular expression over strings: a decimal digit. *)
Definition is_decimal (c : ascii) : bool :=
  ((48 <=? nat_of_ascii c) && (nat_of_ascii c <=? 57))%nat.

(** The characters [str.isdigit] accepts: the decimal digits and the
    superscript digits one, two and three. *)
Definition is_superscript (c : ascii) : bool :=
  ((nat_of_ascii c =? 178) || (nat_of_ascii c =? 179) || (nat_of_ascii c =? 185))%nat.

Definition isdigit (s : list ascii) : bool :=
  match s with
  | [] => false
  | _ => forallb (fun c => is_decimal c || is_superscript c) s
  end.

(** [int(s)] for a string that passed [isdigit]: only decimal digits are a
    valid literal. *)
Definition int (s : list ascii) : result Z :=
  if forallb is_decimal s
  then Ok (fold_left (fun acc c => 10 * acc + (Z.of_nat (nat_of_ascii c) - 48)) s 0)
  else Raise ValueError.

(** [re.split(r'(\d+)', s)], scanning [s] with the piece read so far: a
    piece of text ([inl]) or a run of digits ([inr]).  The result alternates
    text and digit runs and starts and ends with a text, possibly empty. *)
Fixpoint split_from (cur : list ascii + list ascii) (s : list ascii)
  : list (list ascii) :=
  match s with
  | [] => match cur with
          | inl text => [text]
          | inr run => [run; []]
          end
  | c :: s' =>
      match cur, is_decimal c with
      | inl text, true => text :: split_from (inr [c]) s'
      | inl text, false => split_from (inl (text ++ [c])) s'
      | inr run, true => split_from (inr (run ++ [c])) s'
      | inr run, false => run :: split_from (inl [c]) s'
      end
  end.

Definition re_split_digits (s : list ascii) : list (list ascii) :=
  split_from (inl []) s.

(** _natural_key *)
Definition _natural_key (string : list ascii) : result (list (option Z)) :=
  map_m (fun split => if isdigit split
                      then (n <- int split ;; Ok (Some n))
                      else Ok None)
        (re_split_digits string).

(** [k1 < k2] for two lists of numbers and [None]: the first position where
    the lists differ decides, a proper prefix is smaller, and [None] cannot
    be ordered against a number. *)
Fixpoint list_lt (k1 k2 : list (option Z)) : result bool :=
  match k1, k2 with
  | [], [] => Ok false
  | [], _ :: _ => Ok true
  | _ :: _, [] => Ok false
  | a :: k1', b :: k2' =>
      match a, b with
      | None, None => list_lt k1' k2'
      | Some x, Some y => if x =? y then list_lt k1' k2' else Ok (x <? y)
      | _, _ => Raise TypeError
      end
  end.

(** The key of a string whose numbers are [ns]. *)
Definition key_of_numbers (ns : list Z) : list (option Z) :=
  None :: flat_map (fun n => [Some n; None]) ns.

(** The lexicographic order of lists of numbers. *)
Fixpoint lex_lt (ns ms : list Z) : bool :=
  match ns, ms with
  | [], [] => false
  | [], _ :: _ => true
  | _ :: _, [] => false
  | n :: ns', m :: ms' => if n =? m then lex_lt ns' ms' else n <? m
  end.

(** The numbers written in a string, from left to right: the value of each
    maximal run of decimal digits, read with the run in progress [cur]. *)
Fixpoint numbers_from (cur : option Z) (s : list ascii) : list Z :=
  match s with
  | [] => match cur with Some n => [n] | None => [] end
  | c :: s' =>
      if is_decimal c
      then numbers_from
             (Some (10 * (match cur with Some n => n | None => 0 end)
                    + (Z.of_nat (nat_of_ascii c) - 48))) s'
      else match cur with
           | Some n => n :: numbers_from None s'
           | None => numbers_from None s'
           end
  end.

Definition numbers (s : list ascii) : list Z := numbers_from None s.

(** The characters of the ASCII range. *)
Definition is_ascii (s : list ascii) : bool :=
  forallb (fun c => (nat_of_ascii c <? 128)%nat) s.

End NaturalKey.

(* ================================================================== *)
(** * Properties *)

(** ** Sequence indexing *)

Section Indexing.
Context {A B : Type}.

Lemma py_index_in_range (l : list A) (i : Z) :
  0 <= i < Z.of_nat (length l) ->
  exists a, nth_error l (Z.to_nat i) = Some a /\ py_index l i = Ok a.
Proof.
  intros Hi. unfold py_index.
  destruct (i <? 0) eqn:Hneg; [apply Z.ltb_lt in Hneg; lia|].
  replace ((i <? 0) || (Z.of_nat (length l) <=? i)) with false.
  2:{ symmetry. apply orb_false_iff. split; [exact Hneg | apply Z.leb_gt; lia]. }
  destruct (nth_error l (Z.to_nat i)) as [a|] eqn:Hn.
  - exists a. split; reflexivity.
  - apply nth_error_None in Hn. lia.
Qed.

Lemma py_index_wraps (l : list A) (i : Z) :
  - Z.of_nat (length l) <= i < 0 ->
  exists a, nth_error l (Z.to_nat (i + Z.of_nat (length l))) = Some a
            /\ py_index l i = Ok a.
Proof.
  intros Hi. unfold py_index.
  destruct (i <? 0) eqn:Hneg; [|apply Z.ltb_ge in Hneg; lia].
  replace ((i + Z.of_nat (length l) <? 0)
           || (Z.of_nat (length l) <=? i + Z.of_nat (length l))) with false.
  2:{ symmetry. apply orb_false_iff. split; [apply Z.ltb_ge | apply Z.leb_gt]; lia. }
  destruct (nth_error l (Z.to_nat (i + Z.of_nat (length l)))) as [a|] eqn:Hn.
  - exists a. split; reflexivity.
  - apply nth_error_None in Hn. lia.
Qed.

Lemma py_index_out_of_range (l : list A) (i : Z) :
  i < - Z.of_nat (length l) \/ Z.of_nat (length l) <= i ->
  py_index l i = Raise IndexError.
Proof.
  intros Hi. unfold py_index.
  destruct (Z.ltb_spec i 0) as [Hneg|Hneg].
  - destruct (Z.ltb_spec (i + Z.of_nat (length l)) 0); [reflexivity | lia].
  - destruct (Z.ltb_spec i 0); [lia|].
    destruct (Z.leb_spec (Z.of_nat (length l)) i); [reflexivity | lia].
Qed.

Lemma py_index_map (f : A -> B) (l : list A) (i : Z) :
  py_index (map f l) i = (a <- py_index l i ;; Ok (f a)).
Proof.
  unfold py_index. rewrite length_map.
  destruct ((if i <? 0 then i + Z.of_nat (length l) else i) <? 0);
    [reflexivity|]. simpl.
  destruct (Z.of_nat (length l) <=? (if i <? 0 then i + Z.of_nat (length l) else i));
    [reflexivity|].
  rewrite nth_error_map.
  destruct (nth_error l _); reflexivity.
Qed.

End Indexing.

(** ** WindowsDataset.__getitem__ *)

Section GetItem.
Context {signal : Type}.

Lemma getitem_from_index (self : WindowsDataset signal) (j : Z) :
  WindowsDataset_getitem self j = (w <- py_index (windows self) j ;; Ok (window_item w)).
Proof.
  unfold WindowsDataset_getitem, metadata, events.
  rewrite map_map. rewrite !py_index_map.
  destruct (py_index (windows self) j); reflexivity.
Qed.

End GetItem.

(** ** Dictionaries keyed by cells *)

Lemma cell_eqb_eq (a b : cell) : cell_eqb a b = true <-> a = b.
Proof.
  destruct a, b; simpl; split; intros H; try discriminate;
    try (apply Z.eqb_eq in H; congruence);
    try (apply String.eqb_eq in H; congruence);
    try (apply Bool.eqb_prop in H; congruence);
    inversion H; subst;
    auto using Z.eqb_refl, String.eqb_refl, Bool.eqb_reflx.
Qed.

Lemma cell_eqb_refl (a : cell) : cell_eqb a a = true.
Proof. apply cell_eqb_eq. reflexivity. Qed.

Lemma cell_eqb_neq (a b : cell) : cell_eqb a b = false <-> a <> b.
Proof.
  split.
  - intros H E. apply cell_eqb_eq in E. congruence.
  - intros H. destruct (cell_eqb a b) eqn:E; [|reflexivity].
    apply cell_eqb_eq in E. contradiction.
Qed.

Section Dict.
Context {V : Type}.

Lemma dict_set_fresh (d : list (cell * V)) (k : cell) (v : V) :
  ~ In k (map fst d) -> dict_set d k v = d ++ [(k, v)].
Proof.
  induction d as [|[k' v'] d IH]; simpl; intros Hk; [reflexivity|].
  destruct (cell_eqb k' k) eqn:E.
  - apply cell_eqb_eq in E. tauto.
  - rewrite IH; tauto.
Qed.

Lemma NoDup_shift (acc : list cell) (k : cell) (rest : list cell) :
  NoDup (acc ++ k :: rest) -> NoDup ((acc ++ [k]) ++ rest) /\ ~ In k acc.
Proof.
  intros H. split.
  - rewrite <- app_assoc. exact H.
  - apply NoDup_remove_2 in H. intros Hin. apply H. apply in_or_app. tauto.
Qed.

Lemma fold_dict_set_distinct (items acc : list (cell * V)) :
  NoDup (map fst acc ++ map fst items) ->
  fold_left (fun d kv => dict_set d (fst kv) (snd kv)) items acc = acc ++ items.
Proof.
  revert acc. induction items as [|[k v] items IH]; intros acc H; simpl.
  - now rewrite app_nil_r.
  - simpl in H. apply NoDup_shift in H. destruct H as [H Hk].
    rewrite dict_set_fresh by exact Hk.
    rewrite IH.
    + now rewrite <- app_assoc.
    + rewrite map_app. exact H.
Qed.

Lemma dict_of_items_distinct (items : list (cell * V)) :
  NoDup (map fst items) -> dict_of_items items = items.
Proof.
  intros H. unfold dict_of_items. now rewrite fold_dict_set_distinct.
Qed.

(** A loop that stores [f v] under each key, keys distinct: the values are
    computed in order and any exception ends the loop. *)
Lemma for_each_dict_set {X : Type} (f : X -> result V)
  (items : list (cell * X)) (acc : list (cell * V)) :
  NoDup (map fst acc ++ map fst items) ->
  for_each (fun d (it : cell * X) => v <- f (snd it) ;; Ok (dict_set d (fst it) v))
           items acc
  = (vs <- map_m f (map snd items) ;; Ok (acc ++ combine (map fst items) vs)).
Proof.
  revert acc. induction items as [|[k x] items IH]; intros acc H; simpl.
  - now rewrite app_nil_r.
  - simpl in H. apply NoDup_shift in H. destruct H as [H Hk].
    destruct (f x) as [v|e]; simpl; [|reflexivity].
    rewrite dict_set_fresh by exact Hk.
    rewrite IH by (rewrite map_app; exact H).
    destruct (map_m f (map snd items)); simpl; [|reflexivity].
    now rewrite <- app_assoc.
Qed.

End Dict.

(** ** enumerate *)

Lemma enumerate_from_fst {A : Type} (l : list A) (i : Z) :
  map fst (enumerate_from i l) = py_range i (i + Z.of_nat (length l)).
Proof.
  unfold py_range. replace (i + Z.of_nat (length l) - i) with (Z.of_nat (length l)) by lia.
  rewrite Nat2Z.id. revert i. induction l as [|a l IH]; intros i; [reflexivity|].
  cbn [enumerate_from map fst length seq]. f_equal; [lia|].
  rewrite IH. rewrite <- seq_shift. rewrite map_map.
  apply map_ext. intros k. lia.
Qed.

Lemma enumerate_from_snd {A : Type} (l : list A) (i : Z) :
  map snd (enumerate_from i l) = l.
Proof.
  revert i. induction l as [|a l IH]; intros i; simpl; [reflexivity|].
  now rewrite IH.
Qed.

Lemma py_range_NoDup (a b : Z) : NoDup (py_range a b).
Proof.
  unfold py_range. apply Injective_map_NoDup; [|apply seq_NoDup].
  intros x y H. lia.
Qed.

Lemma in_py_range (a b x : Z) : In x (py_range a b) <-> a <= x < b.
Proof.
  unfold py_range. rewrite in_map_iff. split.
  - intros [k [Hk Hin]]. apply in_seq in Hin. lia.
  - intros H. exists (Z.to_nat (x - a)). split; [lia|]. apply in_seq. lia.
Qed.

Lemma length_py_range (a b : Z) : length (py_range a b) = Z.to_nat (b - a).
Proof. unfold py_range. now rewrite length_map, length_seq. Qed.

Lemma positional_names_NoDup (a b : Z) : NoDup (map CInt (py_range a b)).
Proof.
  apply Injective_map_NoDup; [|apply py_range_NoDup].
  intros x y H. congruence.
Qed.

(** ** Loops *)

Lemma for_each_ext {A S : Type} (f g : S -> A -> result S) (l : list A) (s : S) :
  (forall s a, f s a = g s a) -> for_each f l s = for_each g l s.
Proof.
  intros H. revert s. induction l as [|a l IH]; intros s; simpl; [reflexivity|].
  rewrite H. destruct (g s a); simpl; [apply IH | reflexivity].
Qed.

Lemma for_each_append {A B : Type} (f : A -> result B) (l : list A) (acc : list B) :
  for_each (fun acc a => b <- f a ;; Ok (acc ++ [b])) l acc
  = (bs <- map_m f l ;; Ok (acc ++ bs)).
Proof.
  revert acc. induction l as [|a l IH]; intros acc; simpl.
  - now rewrite app_nil_r.
  - destruct (f a) as [b|e]; simpl; [|reflexivity].
    rewrite IH. destruct (map_m f l); simpl; [|reflexivity].
    now rewrite <- app_assoc.
Qed.

Lemma map_m_ok {A B : Type} (f : A -> result B) (g : A -> B) (l : list A) :
  Forall (fun a => f a = Ok (g a)) l -> map_m f l = Ok (map g l).
Proof.
  induction 1 as [|a l Ha _ IH]; simpl; [reflexivity|].
  now rewrite Ha, IH.
Qed.

Lemma map_m_inv {A B : Type} (f : A -> result B) (l : list A) (bs : list B) :
  map_m f l = Ok bs -> Forall2 (fun a b => f a = Ok b) l bs.
Proof.
  revert bs. induction l as [|a l IH]; simpl; intros bs H.
  - inversion H. constructor.
  - destruct (f a) as [b|e] eqn:Ha; simpl in H; [|discriminate].
    destruct (map_m f l) as [bs'|e]; simpl in H; [|discriminate].
    inversion H; subst. constructor; [exact Ha | now apply IH].
Qed.

(** ** Translation of recording indices to window indices *)

Lemma supercrop_ids_unfold (cs : list Z) (windows_is : list Z) :
  _supercrop_ids_of_windows cs windows_is
  = (parts <- map_m (window_range cs) windows_is ;; concatenate parts).
Proof.
  unfold _supercrop_ids_of_windows.
  rewrite for_each_ext with
    (g := fun acc a => b <- window_range cs a ;; Ok (acc ++ [b])).
  - rewrite for_each_append. destruct (map_m (window_range cs) windows_is); reflexivity.
  - intros s a. unfold window_range.
    destruct (getitem _ a); simpl; [|reflexivity].
    destruct (py_index cs a); simpl; [|reflexivity].
    destruct (range_from_scalar _ _); reflexivity.
Qed.

Lemma nth_removelast {A : Type} (l : list A) (i : nat) (d : A) :
  (S i < length l)%nat -> nth i (removelast l) d = nth i l d.
Proof.
  revert i. induction l as [|a l IH]; intros i H; simpl in *; [lia|].
  destruct l as [|b l]; [simpl in H; lia|].
  destruct i as [|i]; [reflexivity|].
  cbn [nth]. apply IH. simpl in *. lia.
Qed.

Lemma length_removelast {A : Type} (l : list A) :
  length (removelast l) = pred (length l).
Proof.
  induction l as [|a l IH]; [reflexivity|].
  destruct l as [|b l]; [reflexivity|].
  cbn [removelast length] in *. now rewrite IH.
Qed.

Lemma insert_front_data (l : list Z) (v : Z) : nd_data (insert_front l v) = v :: l.
Proof. destruct l; reflexivity. Qed.

Lemma insert_front_dtype (l : list Z) (v : Z) :
  nd_dtype (insert_front l v) = match l with [] => Np.float64 | _ => Np.int64 end.
Proof. destruct l; reflexivity. Qed.

(** With a single recording, [cumulative_sizes[:-1]] is the empty list,
    [i_starts] is a float64 array and [range] rejects its entries. *)
Lemma window_range_valid (cs : list Z) (k : Z) :
  0 <= k < Z.of_nat (length cs) ->
  window_range cs k
  = if 2 <=? Z.of_nat (length cs) then Ok (recording_range cs k) else Raise TypeError.
Proof.
  intros Hk. unfold window_range, getitem, slice_but_last.
  rewrite insert_front_data, insert_front_dtype.
  destruct (py_index_in_range (0 :: removelast cs) k) as [a [Ha ->]].
  { cbn [length]. rewrite length_removelast. lia. }
  destruct (py_index_in_range cs k Hk) as [b [Hb ->]].
  simpl. unfold range_from_scalar. simpl.
  destruct (Z.leb_spec 2 (Z.of_nat (length cs))) as [Hn|Hn].
  - destruct (removelast cs) eqn:Hr.
    { apply (f_equal (@length Z)) in Hr. rewrite length_removelast in Hr. simpl in Hr. lia. }
    rewrite <- Hr in *. simpl. f_equal. unfold recording_range, cumulative_at.
    apply nth_error_nth with (d := 0) in Ha, Hb.
    destruct (Z.ltb_spec k 0); [lia|]. rewrite Hb. f_equal.
    destruct (Z.ltb_spec (k - 1) 0).
    + replace (Z.to_nat k) with O in Ha by lia. simpl in Ha. congruence.
    + replace (Z.to_nat k) with (S (Z.to_nat (k - 1))) in Ha by lia. simpl in Ha.
      rewrite nth_removelast in Ha by lia. congruence.
  - destruct cs as [|c [|c' cs]]; simpl in *; [lia | reflexivity | lia].
Qed.

(** The complete behaviour of [_supercrop_ids_of_windows] on a list of
    recording indices in [[0, n)]. *)
Lemma supercrop_ids_of_valid (cs : list Z) (windows_is : list Z) :
  Forall (fun k => 0 <= k < Z.of_nat (length cs)) windows_is ->
  _supercrop_ids_of_windows cs windows_is
  = match windows_is with
    | [] => Raise ValueError
    | _ :: _ =>
        if 2 <=? Z.of_nat (length cs)
        then Ok (mk_ndarray
                   (if existsb is_empty (map (recording_range cs) windows_is)
                    then Np.float64 else Np.int64)
                   (flat_map (recording_range cs) windows_is))
        else Raise TypeError
    end.
Proof.
  intros Hv. rewrite supercrop_ids_unfold.
  destruct (Z.leb_spec 2 (Z.of_nat (length cs))) as [Hn|Hn].
  - rewrite map_m_ok with (g := recording_range cs).
    + destruct windows_is as [|k rest]; [reflexivity|].
      simpl bind. unfold concatenate. rewrite <- flat_map_concat_map.
      reflexivity.
    + eapply Forall_impl; [|exact Hv]. intros k Hk. simpl in Hk.
      rewrite window_range_valid by exact Hk.
      destruct (Z.leb_spec 2 (Z.of_nat (length cs))); [reflexivity | lia].
  - destruct windows_is as [|k rest]; [reflexivity|].
    inversion Hv; subst. simpl. rewrite window_range_valid by assumption.
    destruct (Z.leb_spec 2 (Z.of_nat (length cs))); [lia | reflexivity].
Qed.

(** ** The structure of [split] *)

Lemma map_fst_combine {A B : Type} (l : list A) (l' : list B) :
  length l = length l' -> map fst (combine l l') = l.
Proof.
  revert l'. induction l as [|a l IH]; intros [|b l'] H; simpl in *;
    try discriminate; [reflexivity|]. f_equal. apply IH. lia.
Qed.

Lemma map_m_length {A B : Type} (f : A -> result B) (l : list A) (bs : list B) :
  map_m f l = Ok bs -> length bs = length l.
Proof.
  intros H. apply map_m_inv in H. symmetry. eapply Forall2_length. exact H.
Qed.

Lemma map_combine_snd {A B C : Type} (f : B -> C) (l : list A) (l' : list B) :
  map (fun it : A * B => (fst it, f (snd it))) (combine l l') = combine l (map f l').
Proof.
  revert l'. induction l as [|a l IH]; intros [|b l']; simpl; try reflexivity.
  now rewrite IH.
Qed.

Section SplitStructure.
Context {signal : Type}.
Variable self : ConcatDataset signal.

(** From the resolved groups on, [split] computes the index array of each
    group in turn and pairs it with the group's name. *)
Lemma split_core (items : list (cell * list Z)) :
  NoDup (map fst items) ->
  (supercrop_ids <- _windows_dataset_ids_to_supercrop_ids items (cumulative_sizes self) ;;
   Ok (dict_of_items
         (map (fun it : cell * ndarray => (fst it, mk_Subset self (snd it)))
              supercrop_ids)))
  = (arrs <- map_m (_supercrop_ids_of_windows (cumulative_sizes self)) (map snd items) ;;
     Ok (combine (map fst items) (map (mk_Subset self) arrs))).
Proof.
  intros Hnd. unfold _windows_dataset_ids_to_supercrop_ids.
  rewrite (for_each_dict_set (_supercrop_ids_of_windows (cumulative_sizes self)))
    by exact Hnd.
  destruct (map_m _ (map snd items)) as [arrs|e] eqn:Hm; simpl; [|reflexivity].
  apply map_m_length in Hm. rewrite length_map in Hm.
  rewrite dict_of_items_distinct.
  - now rewrite map_combine_snd.
  - rewrite map_map. simpl. rewrite map_fst_combine; [exact Hnd|].
    rewrite length_map. lia.
Qed.

Lemma split_by_ids_unfold (groups : list (list Z)) :
  split self None (Some groups)
  = (arrs <- map_m (_supercrop_ids_of_windows (cumulative_sizes self)) groups ;;
     Ok (combine (positional_names groups) (map (mk_Subset self) arrs))).
Proof.
  unfold split. simpl bind.
  set (items := map (fun it : Z * list Z => (CInt (fst it), snd it)) (enumerate groups)).
  assert (Hk : map fst items = positional_names groups).
  { unfold items, positional_names, enumerate. rewrite map_map. simpl.
    rewrite <- (map_map fst CInt). now rewrite enumerate_from_fst. }
  assert (Hv : map snd items = groups).
  { unfold items, enumerate. rewrite map_map. simpl. apply enumerate_from_snd. }
  assert (Hnd : NoDup (map fst items)).
  { rewrite Hk. apply positional_names_NoDup. }
  rewrite dict_of_items_distinct by exact Hnd.
  rewrite split_core by exact Hnd. now rewrite Hk, Hv.
Qed.

End SplitStructure.

(** ** Cumulative sizes *)

Section Cumsum.
Context {signal : Type}.

Lemma length_cumsum_from (ds : list (WindowsDataset signal)) (s : Z) :
  length (cumsum_from s ds) = length ds.
Proof.
  revert s. induction ds as [|d ds IH]; intros s; simpl; [reflexivity|].
  now rewrite IH.
Qed.

Lemma cumsum_from_step (ds : list (WindowsDataset signal)) (s : Z) (k : nat)
  (d : WindowsDataset signal) :
  nth_error ds k = Some d ->
  nth k (cumsum_from s ds) 0
  - match k with O => s | S k' => nth k' (cumsum_from s ds) 0 end
  = WindowsDataset_len d.
Proof.
  revert s k. induction ds as [|e ds IH]; intros s k Hk.
  - destruct k; discriminate.
  - destruct k as [|k]; simpl in *.
    + inversion Hk; subst. lia.
    + specialize (IH (s + WindowsDataset_len e) k Hk).
      destruct k as [|k]; simpl in *; lia.
Qed.

Lemma length_recording_range (ds : list (WindowsDataset signal)) (k : Z) :
  0 <= k < Z.of_nat (length ds) ->
  Z.of_nat (length (recording_range (cumsum ds) k)) = recording_len ds k.
Proof.
  intros Hk. unfold recording_range, recording_len. rewrite length_py_range.
  destruct (nth_error ds (Z.to_nat k)) as [d|] eqn:Hd.
  2:{ apply nth_error_None in Hd. lia. }
  pose proof (cumsum_from_step ds 0 (Z.to_nat k) d Hd) as H.
  assert (Hlen : 0 <= WindowsDataset_len d) by (unfold WindowsDataset_len; lia).
  unfold cumulative_at, cumsum.
  destruct (Z.ltb_spec k 0); [lia|].
  destruct (Z.ltb_spec (k - 1) 0).
  - replace (Z.to_nat k) with O in * by lia. lia.
  - remember (Z.to_nat (k - 1)) as j eqn:Hj.
    replace (Z.to_nat k) with (S j) in * by lia.
    cbv iota in H. lia.
Qed.

End Cumsum.

Lemma length_flat_map_Z {A B : Type} (f : A -> list B) (l : list A) :
  Z.of_nat (length (flat_map f l)) = sum_Z (map (fun a => Z.of_nat (length (f a))) l).
Proof.
  induction l as [|a l IH]; simpl; [reflexivity|].
  rewrite length_app. lia.
Qed.

(* ================================================================== *)
(** * Claims about the datasets *)

Lemma map_snd_combine {A B : Type} (l : list A) (l' : list B) :
  length l = length l' -> map snd (combine l l') = l'.
Proof.
  revert l'. induction l as [|a l IH]; intros [|b l'] H; simpl in *;
    try discriminate; [reflexivity|]. f_equal. apply IH. lia.
Qed.

Lemma map_m_raise {A B : Type} (f : A -> result B) (l : list A) (a : A) (e : exn) :
  In a l -> f a = Raise e -> exists e', map_m f l = Raise e'.
Proof.
  induction l as [|b l IH]; simpl; intros Hin Hf; [contradiction|].
  destruct (f b) as [v|e1] eqn:Hb; simpl; [|eauto].
  destruct Hin as [->|Hin]; [congruence|].
  destruct (IH Hin Hf) as [e' ->]. simpl. eauto.
Qed.

Lemma init_fields {signal : Type} (ds : list (WindowsDataset signal)) (i : DataFrame)
  (self : ConcatDataset signal) :
  ConcatDataset_init ds i = Ok self ->
  datasets self = ds /\ cumulative_sizes self = cumsum ds /\ info self = i
  /\ (0 < length ds)%nat.
Proof.
  unfold ConcatDataset_init, assert.
  destruct (Z.ltb_spec 0 (Z.of_nat (length ds))) as [Hpos|Hpos]; simpl;
    intros H; inversion H; subst.
  simpl. repeat split; lia.
Qed.

(** X18. Splitting by explicit lists of recording indices, where it
    returns: the splits are named 0, 1, 2, ... by position; the index
    sequence of a split is the concatenation, in the order listed, of the
    ranges [[cumulative_sizes[k-1], cumulative_sizes[k])] of its recordings
    [k], and its size is the sum of their window counts.  The call returns
    when there are at least two recordings and no group is empty. *)
Theorem split_by_ids_ranges {signal : Type}
  (all_windows_ds : list (WindowsDataset signal)) (i : DataFrame)
  (self : ConcatDataset signal) (groups : list (list Z)) :
  ConcatDataset_init all_windows_ds i = Ok self ->
  (forall g k, In g groups -> In k g -> 0 <= k < Z.of_nat (length all_windows_ds)) ->
  (forall r, split self None (Some groups) = Ok r ->
     map fst r = positional_names groups
     /\ Forall2 (fun g s =>
                   sub_dataset s = self
                   /\ nd_data (sub_indices s)
                      = flat_map (recording_range (cumulative_sizes self)) g
                   /\ Z.of_nat (length (nd_data (sub_indices s)))
                      = sum_Z (map (recording_len all_windows_ds) g))
                groups (map snd r))
  /\ (2 <= Z.of_nat (length all_windows_ds) ->
      (forall g, In g groups -> g <> []) ->
      exists r, split self None (Some groups) = Ok r).
Proof.
  intros Hinit Hvalid.
  destruct (init_fields _ _ _ Hinit) as (Hds & Hcs & _ & _).
  assert (Hlen : length (cumulative_sizes self) = length all_windows_ds).
  { rewrite Hcs. apply length_cumsum_from. }
  assert (Hg : forall g, In g groups ->
             Forall (fun k => 0 <= k < Z.of_nat (length (cumulative_sizes self))) g).
  { intros g Hin. apply Forall_forall. intros k Hk. rewrite Hlen. eauto. }
  rewrite split_by_ids_unfold. split.
  - intros r Hr.
    destruct (map_m _ groups) as [arrs|e] eqn:Hm; simpl in Hr; [|discriminate].
    inversion Hr; subst r; clear Hr.
    pose proof (map_m_length _ _ _ Hm) as Hl.
    assert (Hn : length (positional_names groups) = length (map (mk_Subset self) arrs)).
    { unfold positional_names. rewrite !length_map, length_py_range. lia. }
    rewrite map_fst_combine, map_snd_combine by exact Hn.
    split; [reflexivity|].
    apply map_m_inv in Hm. clear Hn Hl.
    induction Hm as [|g a gs arrs Ha _ IH]; simpl; constructor.
    + rewrite supercrop_ids_of_valid in Ha by (apply Hg; now left).
      destruct g as [|k g]; [discriminate|].
      destruct (2 <=? Z.of_nat (length (cumulative_sizes self))); [|discriminate].
      inversion Ha; subst a; clear Ha. cbv beta. cbn [sub_dataset sub_indices nd_data].
      split; [reflexivity|]. split; [reflexivity|].
      change (recording_range (cumulative_sizes self) k
              ++ flat_map (recording_range (cumulative_sizes self)) g)
        with (flat_map (recording_range (cumulative_sizes self)) (k :: g)).
      rewrite length_flat_map_Z. f_equal. apply map_ext_in. intros j Hj.
      rewrite Hcs. apply length_recording_range. apply (Hvalid (k :: g)); [now left | exact Hj].
    + apply IH.
      * intros g' k' Hin. apply Hvalid. now right.
      * intros g' Hin. apply Hg. now right.
  - intros H2 Hne.
    rewrite map_m_ok with
      (g := fun g => mk_ndarray
                       (if existsb is_empty (map (recording_range (cumulative_sizes self)) g)
                        then Np.float64 else Np.int64)
                       (flat_map (recording_range (cumulative_sizes self)) g)).
    + simpl. eauto.
    + apply Forall_forall. intros g Hin.
      rewrite supercrop_ids_of_valid by (now apply Hg).
      destruct g as [|k g]; [now apply Hne in Hin|].
      rewrite Hlen. destruct (Z.leb_spec 2 (Z.of_nat (length all_windows_ds)));
        [reflexivity | lia].
Qed.

(** C6 (where the code departs from the claim). On a dataset of a single
    recording no split by explicit recording indices returns: the list of
    start indices is built by [np.insert] from the empty slice
    [cumulative_sizes[:-1]] and is a float64 array, so [range] raises
    [TypeError] at the first listed recording, be it [0] or [-1]. *)
Theorem split_by_ids_single_recording {signal : Type}
  (d : WindowsDataset signal) (i : DataFrame) (self : ConcatDataset signal)
  (k : Z) (g : list Z) (groups : list (list Z)) :
  ConcatDataset_init [d] i = Ok self ->
  -1 <= k < 1 ->
  split self None (Some ((k :: g) :: groups)) = Raise TypeError.
Proof.
  intros Hinit Hk. destruct (init_fields _ _ _ Hinit) as (_ & Hcs & _ & _).
  rewrite split_by_ids_unfold. cbn [map_m]. rewrite supercrop_ids_unfold, Hcs.
  cbn [map_m].
  assert (Hw : window_range (cumsum [d]) k = Raise TypeError).
  { assert (Hk' : k = 0 \/ k = -1) by lia. destruct Hk'; subst k; reflexivity. }
  now rewrite Hw.
Qed.

(** C5. [split] fails with the assertion error when both mode arguments are
    given, when none is, and when the requested field is no column of the
    metadata table. *)
Theorem split_rejects_bad_modes {signal : Type} (self : ConcatDataset signal)
  (some_property : option string) (split_ids : option (list (list Z))) :
  (some_property = None /\ split_ids = None)
  \/ (some_property <> None /\ split_ids <> None)
  \/ (exists f, some_property = Some f /\ df_contains (info self) (Some f) = false) ->
  split self some_property split_ids = Raise AssertionError.
Proof.
  intros [[-> ->] | [[Hp Hi] | [f [-> Hf]]]].
  - reflexivity.
  - destruct some_property, split_ids; try contradiction. reflexivity.
  - destruct split_ids as [l|]; [reflexivity|].
    unfold split. cbn [is_none orb assert bind]. unfold _split_ids.
    rewrite Hf. reflexivity.
Qed.

(** C4 (what the code does). A group that lists no recording makes [split]
    raise: [np.concatenate] is called on an empty list of ranges. *)
Theorem split_empty_group_raises {signal : Type} (self : ConcatDataset signal)
  (groups : list (list Z)) :
  split self None (Some [[]]) = Raise ValueError
  /\ (forall cumulative_sizes, _supercrop_ids_of_windows cumulative_sizes [] = Raise ValueError)
  /\ (In [] groups -> exists e, split self None (Some groups) = Raise e).
Proof.
  split; [reflexivity|]. split; [reflexivity|].
  intros Hin. rewrite split_by_ids_unfold.
  destruct (map_m_raise (_supercrop_ids_of_windows (cumulative_sizes self))
              groups [] ValueError Hin eq_refl) as [e ->].
  simpl. eauto.
Qed.

(** C8 (as the code behaves). [__getitem__] raises [IndexError] exactly for
    [j] outside [[-len, len)]; for [0 <= j < len] it returns window [j], and
    for [-len <= j < 0] it returns window [len + j], counted from the end. *)
Theorem getitem_index_semantics {signal : Type} (self : WindowsDataset signal) (j : Z) :
  (j < - WindowsDataset_len self \/ WindowsDataset_len self <= j ->
   WindowsDataset_getitem self j = Raise IndexError)
  /\ (0 <= j < WindowsDataset_len self ->
      exists w, nth_error (windows self) (Z.to_nat j) = Some w
                /\ WindowsDataset_getitem self j = Ok (window_item w))
  /\ (- WindowsDataset_len self <= j < 0 ->
      exists w, nth_error (windows self) (Z.to_nat (WindowsDataset_len self + j)) = Some w
                /\ WindowsDataset_getitem self j = Ok (window_item w)).
Proof.
  assert (Hlen : WindowsDataset_len self = Z.of_nat (length (windows self))).
  { unfold WindowsDataset_len, events. now rewrite length_map. }
  rewrite Hlen, getitem_from_index. repeat split.
  - intros H. now rewrite py_index_out_of_range.
  - intros H. destruct (py_index_in_range (windows self) j H) as [w [Hw ->]]. eauto.
  - intros H. destruct (py_index_wraps (windows self) j H) as [w [Hw ->]].
    exists w. split; [|reflexivity].
    now replace (Z.of_nat (length (windows self)) + j)
      with (j + Z.of_nat (length (windows self))) by lia.
Qed.

Example split_by_ids_example :
  split ex_self None (Some [[1; 0]; [0]])
  = Ok [(CInt 0, mk_Subset ex_self (mk_ndarray Np.int64 [2; 0; 1]));
        (CInt 1, mk_Subset ex_self (mk_ndarray Np.int64 [0; 1]))].
Proof. reflexivity. Qed.

Example split_by_field_example :
  (ds <- MOABBDataset_init ex_windower ex_moabb ;;
   r <- split ds (Some "session"%string) None ;;
   Ok (map (fun s : cell * Subset unit => (fst s, sub_indices (snd s))) r))
  = Ok [(CStr "session_E", mk_ndarray Np.int64 [3; 4; 5]);
        (CStr "session_T", mk_ndarray Np.int64 [0; 1; 2])].
Proof. reflexivity. Qed.

Lemma split_by_ids_ranges_witness :
  ConcatDataset_init ex_ds ex_info = Ok ex_self
  /\ (forall g k, In g [[1; 0]; [0]] -> In k g -> 0 <= k < Z.of_nat (length ex_ds))
  /\ exists r,
       split ex_self None (Some [[1; 0]; [0]]) = Ok r
       /\ map fst r = positional_names [[1; 0]; [0]]
       /\ Forall2 (fun g s =>
                     sub_dataset s = ex_self
                     /\ nd_data (sub_indices s)
                        = flat_map (recording_range (cumulative_sizes ex_self)) g
                     /\ Z.of_nat (length (nd_data (sub_indices s)))
                        = sum_Z (map (recording_len ex_ds) g))
                   [[1; 0]; [0]] (map snd r).
Proof.
  assert (Hv : forall g k, In g [[1; 0]; [0]] -> In k g ->
                           0 <= k < Z.of_nat (length ex_ds)).
  { simpl. intros g k [<-|[<-|[]]]; simpl; intros H; lia. }
  split; [reflexivity|]. split; [exact Hv|].
  destruct (split_by_ids_ranges ex_ds ex_info ex_self [[1; 0]; [0]] eq_refl Hv)
    as [Hshape Hret].
  destruct Hret as [r Hr].
  - simpl. lia.
  - simpl. intros g [<-|[<-|[]]]; discriminate.
  - exists r. split; [exact Hr|]. exact (Hshape r Hr).
Defined.

Lemma split_by_ids_single_recording_witness :
  ConcatDataset_init [ex_wd] (mk_df [0] [("session"%string, [CStr "train"])])
  = Ok (mk_ConcatDataset [ex_wd] [2] (mk_df [0] [("session"%string, [CStr "train"])]))
  /\ -1 <= 0 < 1
  /\ split (mk_ConcatDataset [ex_wd] [2] (mk_df [0] [("session"%string, [CStr "train"])]))
           None (Some [[0]])
     = Raise TypeError.
Proof.
  assert (Hk : -1 <= 0 < 1) by lia.
  split; [reflexivity|]. split; [exact Hk|].
  exact (split_by_ids_single_recording ex_wd _ _ 0 [] [] eq_refl Hk).
Defined.

Lemma split_rejects_bad_modes_witness :
  split ex_self None None = Raise AssertionError
  /\ split ex_self (Some "session"%string) (Some [[0]]) = Raise AssertionError
  /\ split ex_self (Some "subject"%string) None = Raise AssertionError.
Proof.
  split; [|split].
  - apply split_rejects_bad_modes. left. split; reflexivity.
  - apply split_rejects_bad_modes. right. left. split; discriminate.
  - apply split_rejects_bad_modes. right. right.
    exists "subject"%string. split; reflexivity.
Defined.

Lemma getitem_index_semantics_witness :
  - WindowsDataset_len ex_wd <= -1 < 0
  /\ exists w, nth_error (windows ex_wd) (Z.to_nat (WindowsDataset_len ex_wd + -1)) = Some w
               /\ WindowsDataset_getitem ex_wd (-1) = Ok (window_item w).
Proof.
  assert (H : - WindowsDataset_len ex_wd <= -1 < 0) by (simpl; lia).
  split; [exact H|].
  exact (proj2 (proj2 (getitem_index_semantics ex_wd (-1))) H).
Defined.

(** C8, the claim as stated fails: index [-1] is outside [[0, len)] and
    returns the last window. *)
Lemma getitem_negative_index_returns_window :
  WindowsDataset_getitem ex_wd (-1) = Ok (window_item (ex_epoch 1))
  /\ ~ (forall (self : WindowsDataset unit) (j : Z),
          j < 0 \/ WindowsDataset_len self <= j ->
          WindowsDataset_getitem self j = Raise IndexError).
Proof.
  split; [reflexivity|].
  intros H. specialize (H ex_wd (-1)). 
  assert (Hj : -1 < 0 \/ WindowsDataset_len ex_wd <= -1) by (left; lia).
  apply H in Hj. discriminate Hj.
Qed.

(** C3 (where the code departs from the claim). With a single recording the
    split by a field raises [TypeError]; for a TUH dataset built from chosen
    subject ids the index labels of the table are the subject ids, not the
    positions of the recordings, so the split raises [IndexError] or returns
    index sets that do not cover the dataset. *)
Theorem split_by_field_fails :
  (ds <- MOABBDataset_init ex_windower ex_moabb_single ;;
   split ds (Some "session"%string) None) = Raise TypeError
  /\ (ds <- TUHAbnormal_init ex_windower ex_files (Some [1; 2]) "pathological" ;;
      split ds (Some "session"%string) None) = Raise IndexError
  /\ (ds <- TUHAbnormal_init ex_windower ex_files (Some [0; 0]) "pathological" ;;
      r <- split ds (Some "subject"%string) None ;;
      Ok (ConcatDataset_len ds,
          map (fun s : cell * Subset unit => (fst s, nd_data (sub_indices (snd s)))) r))
     = Ok (4, [(CInt 0, [0; 1; 0; 1])]).
Proof. repeat split; reflexivity. Qed.

(** The first failure is general: on a MOABB dataset of one recording every
    split by a column of the table raises [TypeError]. *)
Lemma split_by_field_single_recording {raw signal : Type}
  (windower : BaseDataset raw -> list (epoch signal)) (data : moabb_data raw)
  (ds : ConcatDataset signal) (p : string) :
  MOABBDataset_init windower data = Ok ds ->
  length (datasets ds) = 1%nat ->
  df_contains (info ds) (Some p) = true ->
  split ds (Some p) None = Raise TypeError.
Proof.
  unfold MOABBDataset_init, _fetch_and_unpack_moabb_data.
  set (rows := flat_map _ data). intros Hinit Hone Hp.
  apply init_fields in Hinit. destruct Hinit as (Hds & Hcs & Hinfo & _).
  destruct ds as [dss cs inf]. cbn [datasets cumulative_sizes info] in *. subst dss cs inf.
  rewrite length_map in Hone. unfold enumerate in Hone.
  assert (Hrows : length rows = 1%nat).
  { rewrite <- Hone. rewrite <- (length_map fst rows).
    rewrite <- (length_map snd (enumerate_from 0 (map fst rows))).
    now rewrite enumerate_from_snd. }
  destruct rows as [|r [|r' rows]]; try discriminate. clear Hone Hrows.
  change (range_index [r]) with [0] in *.
  unfold split, _split_ids. cbn [is_none orb assert bind info]. rewrite Hp.
  cbn [bind cumulative_sizes].
  unfold groupby, df_getitem, df_contains in *. cbn [df_columns map fst] in *.
  cbn [lookup_column existsb] in *.
  rewrite (String.eqb_sym p "subject"), (String.eqb_sym p "session"),
    (String.eqb_sym p "run") in Hp.
  destruct (String.eqb "subject" p);
    [|destruct (String.eqb "session" p);
      [|destruct (String.eqb "run" p); [|discriminate]]];
    cbn; rewrite ?cell_eqb_refl; cbn; rewrite ?cell_eqb_refl; reflexivity.
Qed.

(* ================================================================== *)
(** * Claims about the classifier *)

Section Loader.
Context {row : Type}.
Variable cast : torch_dtype -> row -> row.
Variable item : torch_dtype -> row -> value row.

Lemma loader_step_inv (self self' : net row) (b out : batch row) :
  loader_step cast self b = Ok (self', out) ->
  exists x y rest x' y',
    b = x :: y :: rest /\ (length rest <= 1)%nat /\ self' = stash self rest
    /\ out = [x'; y'].
Proof.
  unfold loader_step. intros H.
  destruct b as [|x [|y [|i [|z rest]]]]; simpl in H; try discriminate.
  - exists x, y, []. destruct (hasattr_type x).
    + destruct (type_ cast x float32) as [x'|]; simpl in H; [|discriminate].
      destruct (type_ cast y int64) as [y'|]; simpl in H; [|discriminate].
      inversion H; subst. exists x', y'. repeat split; simpl; lia.
    + inversion H; subst. exists x, y. repeat split; simpl; lia.
  - exists x, y, [i]. destruct (hasattr_type x).
    + destruct (type_ cast x float32) as [x'|]; simpl in H; [|discriminate].
      destruct (type_ cast y int64) as [y'|]; simpl in H; [|discriminate].
      inversion H; subst. exists x', y'. repeat split; simpl; lia.
    + inversion H; subst. exists x, y. repeat split; simpl; lia.
Qed.

Lemma loader_step_processable (self : net row) (b : batch row) :
  processable b = true ->
  exists out, loader_step cast self b = Ok (stash self (skipn 2 b), out)
              /\ length out = 2%nat.
Proof.
  unfold processable, loader_step.
  destruct b as [|x [|y [|i [|z rest]]]]; try discriminate; intros H; simpl;
    destruct x; simpl in *; try (eexists; split; reflexivity);
    destruct y; simpl in *; try discriminate; eexists; split; reflexivity.
Qed.

Lemma loader_emits_pairs (self : net row) (loader : list (batch row)) :
  Forall (fun b => length b = 2%nat) (emitted (ThrowAwayIndexLoader_iter cast self loader)).
Proof.
  revert self. induction loader as [|b loader IH]; intros self; simpl.
  - constructor.
  - destruct (loader_step cast self b) as [[self' out]|e] eqn:Hs; simpl.
    + constructor; [|apply IH].
      apply loader_step_inv in Hs.
      destruct Hs as (x & y & rest & x' & y' & _ & _ & _ & ->). reflexivity.
    + constructor.
Qed.

(** C1 (as the code behaves). With [drop_index=True] every batch the loader
    yields has exactly two elements.  With [drop_index=False] the iterator
    returned is the underlying one: its batches are yielded as they are, so
    a three-element batch keeps its third element and a two-element batch
    stays a pair. *)
Theorem get_iterator_emitted (self : net row) (iterator : list (batch row)) :
  Forall (fun b => length b = 2%nat) (emitted (get_iterator cast self iterator true))
  /\ emitted (get_iterator cast self iterator false) = iterator
  /\ raised (get_iterator cast self iterator false) = None
  /\ Forall2 (fun raw out =>
                forall x y i, raw = [x; y; i] -> out = [x; y; i])
             iterator (emitted (get_iterator cast self iterator false)).
Proof.
  repeat split.
  - apply loader_emits_pairs.
  - simpl. induction iterator as [|b l IH]; constructor; [|exact IH].
    intros x y i H. exact H.
Qed.

(** C7 (as the code behaves). When the input has a [type] attribute, as
    tensors do, the loader converts the input to float32 and the target to
    int64; when it has none, the pair is yielded unchanged.  A tensor input
    with a target that is no tensor raises [AttributeError]. *)
Theorem loader_step_coercion (self : net row) (x y : value row) (rest : list (value row)) :
  (length rest <= 1)%nat ->
  (forall dtx rx dty ry, x = Tensor dtx rx -> y = Tensor dty ry ->
     loader_step cast self (x :: y :: rest)
     = Ok (stash self rest,
           [Tensor float32 (map (cast float32) rx); Tensor int64 (map (cast int64) ry)]))
  /\ (hasattr_type x = false ->
      loader_step cast self (x :: y :: rest) = Ok (stash self rest, [x; y]))
  /\ (hasattr_type x = true -> hasattr_type y = false ->
      loader_step cast self (x :: y :: rest) = Raise AttributeError).
Proof.
  intros Hrest.
  destruct rest as [|i [|z rest]]; simpl in Hrest; try lia;
    (split; [|split]).
  all: try (intros dtx rx dty ry -> ->; reflexivity).
  all: try (intros Hx; unfold loader_step; simpl; rewrite Hx; reflexivity).
  all: intros Hx Hy; destruct x; try discriminate; destruct y; try discriminate;
    reflexivity.
Qed.

End Loader.

(** ** The post-batch hook *)

Section Hook.
Context {row : Type}.
Variable cast : torch_dtype -> row -> row.

Lemma logged_nil (c : callback row) : logged c [] = c.
Proof.
  destruct c as [n [l|] t]; unfold logged; simpl; [|reflexivity].
  now rewrite app_nil_r.
Qed.

Lemma logged_logged (c : callback row) (a b : list (value row)) :
  logged (logged c a) b = logged c (a ++ b).
Proof.
  destruct c as [n [l|] t]; unfold logged; simpl; [|reflexivity].
  now rewrite app_assoc.
Qed.

Lemma consumes_logged (c : callback row) (e : list (value row)) :
  consumes_provenance (logged c e) = consumes_provenance c.
Proof. destruct c as [n [l|] t]; reflexivity. Qed.

Lemma nth_error_append_log (h : list (callback row)) (r r' : nat) (v : value row) :
  nth_error (append_log h r v) r'
  = if Nat.eqb r r' then option_map (fun c => logged c [v]) (nth_error h r')
    else nth_error h r'.
Proof.
  revert r r'. induction h as [|c h IH]; intros r r'.
  - simpl. destruct r'; destruct (Nat.eqb r _); reflexivity.
  - destruct r as [|r], r' as [|r']; simpl; try reflexivity. apply IH.
Qed.

Lemma nth_error_fold_append (refs : list (cb_ref row)) (h : list (callback row))
  (v : value row) (r : nat) :
  nth_error (fold_left (fun h cb => append_to h cb v) refs h) r
  = option_map (fun c => logged c (repeat v (length (filter (is_ref r) refs))))
               (nth_error h r).
Proof.
  revert h. induction refs as [|cb refs IH]; intros h; simpl.
  - destruct (nth_error h r) as [c|]; simpl; [|reflexivity]. now rewrite logged_nil.
  - rewrite IH. destruct cb as [c0|r0]; simpl; [reflexivity|].
    rewrite nth_error_append_log.
    destruct (Nat.eqb r0 r); [|reflexivity].
    destruct (nth_error h r) as [c|]; simpl; [|reflexivity].
    now rewrite logged_logged.
Qed.

Lemma selected_fold_append (refs : list (cb_ref row)) (h : list (callback row))
  (v : value row) (c : cb_ref row) :
  selected (fold_left (fun h cb => append_to h cb v) refs h) c = selected h c.
Proof.
  destruct c as [c|r]; [reflexivity|]. unfold selected, deref.
  rewrite nth_error_fold_append.
  destruct (nth_error h r); simpl; [apply consumes_logged | reflexivity].
Qed.

Lemma on_batch_end_eval (self : net row) :
  has_provenance_consumer self = true ->
  on_batch_end self false
  = match _last_supercrop_inds self with
    | None => Raise AssertionError
    | Some v =>
        Ok (set_last
              (set_heap self (fold_left (fun h cb => append_to h cb v)
                                        (epoch_cbs self) (heap self)))
              None)
    end.
Proof.
  unfold has_provenance_consumer, epoch_cbs, on_batch_end. simpl negb.
  destruct (callbacks self) as [user|]; simpl; [|discriminate].
  destruct (filter _ _) as [|c l] eqn:Hf; simpl; [discriminate|].
  intros _. reflexivity.
Qed.

Lemma epoch_cbs_heap (self : net row) (h : list (callback row)) (slot : option (value row)) :
  (forall c, selected h c = selected (heap self) c) ->
  epoch_cbs (mk_net (callbacks self) h slot) = epoch_cbs self.
Proof.
  intros H. unfold epoch_cbs. simpl.
  destruct (callbacks self); [|reflexivity]. apply filter_ext. exact H.
Qed.

(** C2. In evaluation mode with a registered provenance consumer: an empty
    slot fails the assertion; a pending value is appended to the log of
    every such callback (once per registration) and the slot is cleared;
    other objects are left as they are.  For every stream
    [[(x0, y0, p0), (x1, y1)]] of two batches the loader can process: the
    loader emits batch 0 as a pair, the hook of batch 0 returns and leaves
    [p0] appended to the logs, the loader emits batch 1 as a pair, and the
    hook of batch 1 raises the assertion error. *)
Theorem on_batch_end_delivers (self : net row) :
  has_provenance_consumer self = true ->
  (_last_supercrop_inds self = None -> on_batch_end self false = Raise AssertionError)
  /\ (forall r, In (Ref r) (epoch_cbs self) -> exists n, registrations self r = S n)
  /\ (forall v, _last_supercrop_inds self = Some v ->
      exists self',
        on_batch_end self false = Ok self'
        /\ _last_supercrop_inds self' = None
        /\ callbacks self' = callbacks self
        /\ forall r c, nth_error (heap self) r = Some c ->
             nth_error (heap self') r
             = Some (logged c (repeat v (registrations self r))))
  /\ (forall x0 y0 p0 x1 y1,
      processable [x0; y0; p0] = true -> processable [x1; y1] = true ->
      exists s1 e0 s2 s3 e1,
        loader_step cast self [x0; y0; p0] = Ok (s1, e0)
        /\ length e0 = 2%nat
        /\ on_batch_end s1 false = Ok s2
        /\ (forall r c, nth_error (heap self) r = Some c ->
              nth_error (heap s2) r
              = Some (logged c (repeat p0 (registrations self r))))
        /\ loader_step cast s2 [x1; y1] = Ok (s3, e1)
        /\ length e1 = 2%nat
        /\ on_batch_end s3 false = Raise AssertionError).
Proof.
  intros Hc. split; [|split; [|split]].
  - intros Hnone. rewrite on_batch_end_eval by exact Hc. now rewrite Hnone.
  - intros r Hin. unfold registrations.
    destruct (filter (is_ref r) (epoch_cbs self)) as [|c l] eqn:Hf; [|simpl; eauto].
    assert (Hr : In (Ref r) (filter (is_ref r) (epoch_cbs self))).
    { apply filter_In. split; [exact Hin|]. simpl. apply Nat.eqb_refl. }
    rewrite Hf in Hr. contradiction.
  - intros v Hv. rewrite on_batch_end_eval by exact Hc. rewrite Hv.
    eexists. split; [reflexivity|]. simpl. repeat split.
    intros r c Hr. rewrite nth_error_fold_append, Hr. reflexivity.
  - intros x0 y0 p0 x1 y1 Hp0 Hp1.
    destruct (loader_step_processable cast self [x0; y0; p0] Hp0) as [e0 [H0 Hl0]].
    cbn [skipn stash] in H0.
    assert (Hc1 : has_provenance_consumer (set_last self (Some p0)) = true) by exact Hc.
    pose proof (on_batch_end_eval (set_last self (Some p0)) Hc1) as Hook0.
    cbn [_last_supercrop_inds set_last] in Hook0.
    set (s2 := set_last (set_heap (set_last self (Some p0))
                 (fold_left (fun h cb => append_to h cb p0)
                            (epoch_cbs (set_last self (Some p0)))
                            (heap (set_last self (Some p0))))) None) in *.
    destruct (loader_step_processable cast s2 [x1; y1] Hp1) as [e1 [H1 Hl1]].
    cbn [skipn stash] in H1.
    exists (set_last self (Some p0)), e0, s2, s2, e1.
    split; [exact H0|]. split; [exact Hl0|]. split; [exact Hook0|]. split.
    + intros r c Hr. unfold s2. simpl. rewrite nth_error_fold_append, Hr. reflexivity.
    + split; [exact H1|]. split; [exact Hl1|].
      rewrite on_batch_end_eval; [reflexivity|].
      unfold s2, has_provenance_consumer, set_last, set_heap. simpl.
      rewrite epoch_cbs_heap; [exact Hc|].
      intros c. apply selected_fold_append.
Qed.

End Hook.

(** ** The cropped predictor *)

Lemma concat_batch_sampler {A : Type} (n : nat) (cur l : list A) :
  concat (batch_sampler n cur l) = rev cur ++ l.
Proof.
  revert cur. induction l as [|a l IH]; intros cur.
  - simpl. destruct cur; simpl; now rewrite ?app_nil_r.
  - cbn [batch_sampler]. destruct (Nat.eqb (length (a :: cur)) n).
    + cbn [concat]. rewrite IH. simpl. now rewrite <- app_assoc.
    + rewrite IH. simpl. now rewrite <- app_assoc.
Qed.

Section Predictor.
Context {row : Type}.
Variable cast : torch_dtype -> row -> row.
Variable item : torch_dtype -> row -> value row.
Variable predict_proba : value row -> result (list row).

Lemma predict_body_collate (acc : collected row) (c : list (sample row)) :
  predict_body item predict_proba acc (collate c)
  = (p <- predict_chunk predict_proba c ;;
     Ok (mk_collected (c_preds acc ++ [p])
                      (c_in_trials acc ++ [map s_in_trial c])
                      (c_stops acc ++ [map s_stop c])
                      (c_ys acc ++ [map s_y c]))).
Proof. reflexivity. Qed.

Lemma predict_loop (chunks : list (list (sample row))) (acc : collected row) :
  for_each (predict_body item predict_proba) (map collate chunks) acc
  = (ps <- map_m (predict_chunk predict_proba) chunks ;;
     Ok (mk_collected (c_preds acc ++ ps)
                      (c_in_trials acc ++ map (map s_in_trial) chunks)
                      (c_stops acc ++ map (map s_stop) chunks)
                      (c_ys acc ++ map (map s_y) chunks))).
Proof.
  revert acc. induction chunks as [|c chunks IH]; intros acc.
  - simpl. rewrite !app_nil_r. now destruct acc.
  - cbn [map for_each]. rewrite predict_body_collate.
    cbn [map_m]. destruct (predict_chunk predict_proba c) as [p|e]; [|reflexivity].
    cbn [bind]. rewrite IH. cbn [c_preds c_in_trials c_stops c_ys].
    destruct (map_m (predict_chunk predict_proba) chunks) as [ps|e]; [|reflexivity].
    cbn [bind]. now rewrite <- !app_assoc.
Qed.

(** The predictor over the batches of a loader, whatever the order
    [sampled] in which the sampler visits the dataset. *)
Lemma predict_over_loader (self : net row) (batch_size : positive)
  (sampled : list (sample row)) :
  fst (predict_with_supercrop_inds_and_ys cast item self predict_proba
         (DataLoader batch_size sampled))
  = (ps <- map_m (predict_chunk predict_proba) (batch_sampler (Pos.to_nat batch_size) [] sampled) ;;
     match sampled with
     | [] => Raise ValueError
     | _ => Ok (mk_prediction (concat ps) (map s_in_trial sampled)
                              (map s_stop sampled) (map s_y sampled))
     end).
Proof.
  unfold predict_with_supercrop_inds_and_ys, DataLoader, get_iterator.
  cbn [fst emitted raised].
  pose proof (concat_batch_sampler (Pos.to_nat batch_size) [] sampled) as Hc.
  simpl in Hc.
  remember (batch_sampler (Pos.to_nat batch_size) [] sampled) as chunks eqn:Hch.
  rewrite predict_loop.
  destruct (map_m (predict_chunk predict_proba) chunks) as [ps|e] eqn:Hps; [|reflexivity].
  cbn [bind c_preds c_in_trials c_stops c_ys app].
  pose proof (map_m_length _ _ _ Hps) as Hl.
  destruct sampled as [|s sampled].
  - simpl in Hch. subst chunks. destruct ps; [reflexivity | discriminate].
  - destruct chunks as [|c chunks]; [discriminate|].
    destruct ps as [|p ps]; [discriminate|].
    unfold concatenate_rows.
    rewrite <- !concat_map, Hc. reflexivity.
Qed.

End Predictor.

Lemma map_m_total {A B : Type} (f : A -> result B) (l : list A) :
  (forall a, In a l -> exists b, f a = Ok b) -> exists bs, map_m f l = Ok bs.
Proof.
  induction l as [|a l IH]; intros H; simpl; [eauto|].
  destruct (H a (or_introl eq_refl)) as [b ->].
  destruct IH as [bs ->]; [intros a' Ha'; apply H; now right|].
  simpl. eauto.
Qed.



Section PredictorClaims.
Context {row : Type}.
Variable cast : torch_dtype -> row -> row.
Variable item : torch_dtype -> row -> value row.
Variable predict_proba : value row -> result (list row).


Lemma batch_sampler_nonempty {A : Type} (n : nat) (cur l : list A) (c : list A) :
  In c (batch_sampler n cur l) -> c <> [].
Proof.
  revert cur. induction l as [|a l IH]; intros cur; cbn [batch_sampler].
  - destruct cur as [|b cur]; [intros []|]. intros [<-|[]] E.
    apply (f_equal (@length A)) in E. rewrite length_rev in E. discriminate.
  - destruct (Nat.eqb (length (a :: cur)) n).
    + intros [<-|H]; [|now apply (IH [])]. intros E.
      apply (f_equal (@length A)) in E. rewrite length_rev in E. discriminate.
    + apply IH.
Qed.

Lemma skorch_predict_proba_rowwise (module : list row -> result (list row))
  (f : row -> row) (batch_size : positive) (revisit : list row -> list row)
  (rows : list row) :
  (forall rows, module rows = Ok (map f rows)) ->
  revisit rows <> [] ->
  skorch_predict_proba cast module batch_size revisit rows
  = Ok (map (fun x => f (cast float32 x)) (revisit rows)).
Proof.
  intros Hf Hne. unfold skorch_predict_proba.
  pose proof (concat_batch_sampler (Pos.to_nat batch_size) [] (revisit rows)) as Hc.
  cbn [rev app] in Hc.
  remember (batch_sampler (Pos.to_nat batch_size) [] (revisit rows)) as chunks.
  rewrite map_m_ok with (g := fun chunk => map (fun x => f (cast float32 x)) chunk).
  - cbn [bind]. unfold concatenate_rows.
    destruct chunks as [|c chunks]; [simpl in Hc; congruence|].
    cbn [map]. rewrite <- Hc.
    change (map (fun x => f (cast float32 x)) c
            :: map (fun chunk => map (fun x => f (cast float32 x)) chunk) chunks)
      with (map (fun chunk => map (fun x => f (cast float32 x)) chunk) (c :: chunks)).
    now rewrite <- concat_map.
  - apply Forall_forall. intros c _. rewrite Hf. now rewrite map_map.
Qed.

(** C10 (as the code behaves). The predictor has no check of the order of
    its iterator and no statement that warns.  Over the batches of a loader
    that visits a non-empty dataset in any order [sampled] it returns: the
    window indices, stop indices and targets follow that order; the
    predictions are, batch after batch, those of [predict_proba], which
    passes over the rows of the batch once more with the loader settings of
    the classifier, so that within each batch they follow the order
    [revisit] of that second pass and not the order of the indices. *)
Theorem predict_follows_sampler (self : net row) (batch_size inner_size : positive)
  (module : list row -> result (list row)) (f : row -> row)
  (revisit : list row -> list row)
  (sampled : list (sample row)) (iterator : list (batch row)) :
  snd (predict_with_supercrop_inds_and_ys cast item self predict_proba iterator) = []
  /\ (sampled <> [] ->
      (forall dt rows, predict_proba (Tensor dt rows)
                       = skorch_predict_proba cast module inner_size revisit rows) ->
      (forall rows, Permutation (revisit rows) rows) ->
      (forall rows, module rows = Ok (map f rows)) ->
      exists r,
        predict_with_supercrop_inds_and_ys cast item self predict_proba
          (DataLoader batch_size sampled) = (Ok r, [])
        /\ i_supercrop_in_trials r = map s_in_trial sampled
        /\ i_supercrop_stops r = map s_stop sampled
        /\ supercrop_ys r = map s_y sampled
        /\ preds r
           = flat_map (fun chunk => map (fun x => f (cast float32 x))
                                        (revisit (map s_x chunk)))
                      (batch_sampler (Pos.to_nat batch_size) [] sampled)).
Proof.
  split; [reflexivity|]. intros Hne Hpp Hperm Hf.
  pose proof (predict_over_loader cast item predict_proba self batch_size sampled) as H.
  rewrite map_m_ok
    with (g := fun chunk => map (fun x => f (cast float32 x)) (revisit (map s_x chunk)))
    in H.
  - cbn [bind] in H. destruct sampled as [|s sampled]; [contradiction|].
    eexists. split.
    + rewrite (surjective_pairing (predict_with_supercrop_inds_and_ys _ _ _ _ _)).
      rewrite H. reflexivity.
    + cbn [i_supercrop_in_trials i_supercrop_stops supercrop_ys preds].
      repeat split. now rewrite flat_map_concat_map.
  - apply Forall_forall. intros c Hc. unfold predict_chunk. rewrite Hpp.
    apply skorch_predict_proba_rowwise; [exact Hf|].
    intros E. pose proof (Hperm (map s_x c)) as Hp. rewrite E in Hp.
    apply Permutation_nil in Hp.
    apply (batch_sampler_nonempty _ _ _ _ Hc). now destruct c.
Qed.

End PredictorClaims.

(** The scenario of the spec, step by step: stash, hook, second batch,
    hook. *)
Example scenario_two_batches :
  (st1 <- loader_step ex_cast ex_net [x0; y0; p0] ;;
   n2 <- on_batch_end (fst st1) false ;;
   st3 <- loader_step ex_cast n2 [x1; y1] ;;
   Ok (snd st1, heap n2, _last_supercrop_inds n2, snd st3,
       on_batch_end (fst st3) false))
  = Ok ([x0; y0],
        [mk_callback "CroppedTrialEpochScoring" (Some [p0]) false],
        None,
        [x1; y1],
        Raise AssertionError).
Proof. reflexivity. Qed.

Lemma on_batch_end_delivers_witness :
  has_provenance_consumer ex_net = true
  /\ on_batch_end ex_net false = Raise AssertionError
  /\ (exists self',
        on_batch_end (set_last ex_net (Some p0)) false = Ok self'
        /\ _last_supercrop_inds self' = None
        /\ nth_error (heap self') 0
           = Some (mk_callback "CroppedTrialEpochScoring" (Some [p0]) false))
  /\ exists s1 e0 s2 s3 e1,
       loader_step ex_cast ex_net [x0; y0; p0] = Ok (s1, e0)
       /\ length e0 = 2%nat
       /\ on_batch_end s1 false = Ok s2
       /\ nth_error (heap s2) 0
          = Some (mk_callback "CroppedTrialEpochScoring" (Some [p0]) false)
       /\ loader_step ex_cast s2 [x1; y1] = Ok (s3, e1)
       /\ length e1 = 2%nat
       /\ on_batch_end s3 false = Raise AssertionError.
Proof.
  destruct (on_batch_end_delivers ex_cast ex_net eq_refl) as (Ha & _ & _ & Hd).
  destruct (on_batch_end_delivers ex_cast (set_last ex_net (Some p0)) eq_refl)
    as (_ & _ & Hc & _).
  split; [reflexivity|]. split; [exact (Ha eq_refl)|]. split.
  - destruct (Hc p0 eq_refl) as (self' & Hok & Hslot & _ & Hlog).
    exists self'. split; [exact Hok|]. split; [exact Hslot|].
    exact (Hlog 0%nat _ eq_refl).
  - destruct (Hd x0 y0 p0 x1 y1 eq_refl eq_refl)
      as (s1 & e0 & s2 & s3 & e1 & H0 & Hl0 & Hook & Hlog & H1 & Hl1 & Hfail).
    exists s1, e0, s2, s3, e1. repeat split; try assumption.
    exact (Hlog 0%nat _ eq_refl).
Defined.

(** C1, the claim as stated fails: with [drop_index=False] the second
    batch of the stream [[(x0, y0, p0), (x1, y1)]] is yielded with two
    elements. *)
Lemma get_iterator_keeps_raw_pairs :
  emitted (get_iterator ex_cast ex_net [[x0; y0; p0]; [x1; y1]] false)
  = [[x0; y0; p0]; [x1; y1]]
  /\ ~ Forall (fun b : batch Z => length b = 3%nat)
         (emitted (get_iterator ex_cast ex_net [[x0; y0; p0]; [x1; y1]] false)).
Proof.
  split; [reflexivity|]. intros H. simpl in H.
  inversion H as [|? ? _ H']; subst. inversion H' as [|? ? Hl _]; subst.
  discriminate Hl.
Qed.

(** C7, the claim as stated fails: elements with tensor semantics are
    converted, not passed through, and elements without are passed through,
    not converted. *)
Lemma loader_converts_tensors_only :
  loader_step ex_cast ex_net [Tensor float64 [10; 11]; Tensor int32 [0; 1]]
  = Ok (ex_net, [Tensor float32 [10; 11]; Tensor int64 [0; 1]])
  /\ [Tensor float32 [10; 11]; Tensor int64 [0; 1]]
     <> [Tensor float64 [10; 11]; Tensor int32 [0; 1]]
  /\ loader_step ex_cast ex_net [x0; y0] = Ok (ex_net, [x0; y0]).
Proof.
  split; [reflexivity|]. split; [discriminate | reflexivity].
Qed.

Lemma loader_step_coercion_witness :
  (length (@nil (value Z)) <= 1)%nat
  /\ hasattr_type x0 = false
  /\ loader_step ex_cast ex_net [x0; y0] = Ok (ex_net, [x0; y0]).
Proof.
  assert (H : (length (@nil (value Z)) <= 1)%nat) by (simpl; lia).
  split; [exact H|]. split; [reflexivity|].
  exact (proj1 (proj2 (loader_step_coercion ex_cast ex_net x0 y0 [] H)) eq_refl).
Defined.

Example predict_in_order :
  predict_with_supercrop_inds_and_ys ex_cast ex_item ex_net ex_predict_proba
    (DataLoader 1 [s0; s1])
  = (Ok (mk_prediction [20; 22] [0; 1] [10; 15] [0; 1]), []).
Proof. reflexivity. Qed.


(** C10, the claim as stated fails: on the batches of a loader that visits
    the dataset [[s0; s1]] in the order [[s1; s0]], in one batch, the
    predictor neither fails nor warns; it returns the indices and targets in
    the shuffled order and the predictions in the order of the second pass
    of [predict_proba], here the prediction of window 0 beside the index of
    window 1. *)
Lemma predict_accepts_shuffled :
  predict_with_supercrop_inds_and_ys ex_cast ex_item ex_net ex_shuffling_predict_proba
    (DataLoader 2 [s1; s0])
  = (Ok (mk_prediction [20; 22] [1; 0] [15; 10] [1; 0]), [])
  /\ fails_or_warns
       (predict_with_supercrop_inds_and_ys ex_cast ex_item ex_net
          ex_shuffling_predict_proba (DataLoader 2 [s1; s0])) = false.
Proof. split; reflexivity. Qed.

Lemma predict_follows_sampler_witness :
  [s1; s0] <> []
  /\ (forall dt rows, ex_shuffling_predict_proba (Tensor dt rows)
                      = skorch_predict_proba ex_cast ex_module 2 (@rev Z) rows)
  /\ (forall rows : list Z, Permutation (rev rows) rows)
  /\ (forall rows, ex_module rows = Ok (map (fun z => 2 * z) rows))
  /\ exists r,
       predict_with_supercrop_inds_and_ys ex_cast ex_item ex_net
         ex_shuffling_predict_proba (DataLoader 2 [s1; s0]) = (Ok r, [])
       /\ i_supercrop_in_trials r = [1; 0]
       /\ i_supercrop_stops r = [15; 10]
       /\ supercrop_ys r = [1; 0]
       /\ preds r = [20; 22].
Proof.
  assert (Hne : [s1; s0] <> []) by discriminate.
  assert (Hpp : forall dt rows, ex_shuffling_predict_proba (Tensor dt rows)
                  = skorch_predict_proba ex_cast ex_module 2 (@rev Z) rows)
    by reflexivity.
  assert (Hperm : forall rows : list Z, Permutation (rev rows) rows).
  { intros rows. symmetry. apply Permutation_rev. }
  assert (Hf : forall rows, ex_module rows = Ok (map (fun z => 2 * z) rows))
    by reflexivity.
  split; [exact Hne|]. split; [exact Hpp|]. split; [exact Hperm|]. split; [exact Hf|].
  exact (proj2 (predict_follows_sampler ex_cast ex_item ex_shuffling_predict_proba ex_net
                  2 2 ex_module (fun z => 2 * z) (@rev Z) [s1; s0] [])
               Hne Hpp Hperm Hf).
Defined.

(* ================================================================== *)
(** * Where the split by a field does partition the dataset

    For a MOABB dataset of at least two recordings the split by a column of
    the metadata table returns one index set per distinct value, and the
    index sets together hold every index of [[0, total)] exactly once. *)

(** ** The ranges of all recordings tile [[0, total)] *)

Lemma map_seq_offset {B : Type} (f : nat -> B) (m n : nat) :
  map f (seq m n) = map (fun k => f (m + k)%nat) (seq 0 n).
Proof.
  revert f m. induction n as [|n IH]; intros f m; [reflexivity|].
  cbn [seq map]. f_equal; [f_equal; lia|].
  rewrite IH. rewrite (IH (fun k => f (m + k)%nat) 1%nat).
  apply map_ext. intros k. f_equal. lia.
Qed.

Lemma py_range_app (a b c : Z) :
  a <= b <= c -> py_range a b ++ py_range b c = py_range a c.
Proof.
  intros H. unfold py_range.
  replace (Z.to_nat (c - a)) with (Z.to_nat (b - a) + Z.to_nat (c - b))%nat by lia.
  rewrite seq_app, map_app. apply (f_equal (app _)).
  rewrite (map_seq_offset _ (0 + Z.to_nat (b - a))).
  apply map_ext. intros k. lia.
Qed.

Lemma flat_map_ext_in {A B : Type} (f g : A -> list B) (l : list A) :
  (forall a, In a l -> f a = g a) -> flat_map f l = flat_map g l.
Proof.
  induction l as [|a l IH]; intros H; simpl; [reflexivity|].
  rewrite H by now left. rewrite IH; [reflexivity|].
  intros a' Ha'. apply H. now right.
Qed.

Lemma flat_map_map {A B C : Type} (f : B -> list C) (g : A -> B) (l : list A) :
  flat_map f (map g l) = flat_map (fun a => f (g a)) l.
Proof. induction l as [|a l IH]; simpl; [reflexivity|]. now rewrite IH. Qed.

Lemma last_cons {A : Type} (l : list A) (a d : A) : last (a :: l) d = last l a.
Proof.
  revert a d. induction l as [|b l IH]; intros a d; [reflexivity|].
  change (last (a :: b :: l) d) with (last (b :: l) d).
  now rewrite (IH b d), (IH b a).
Qed.

Lemma chain_last (cs : list Z) (b : Z) : chain b cs -> b <= last cs b.
Proof.
  revert b. induction cs as [|c cs IH]; intros b Hch; simpl chain in Hch.
  - simpl. lia.
  - destruct Hch as [Hbc Hch]. rewrite last_cons. specialize (IH c Hch). lia.
Qed.

Lemma ranges_tile (cs : list Z) (b : Z) :
  chain b cs ->
  flat_map (range_from_base b cs) (seq 0 (length cs)) = py_range b (last cs b).
Proof.
  revert b. induction cs as [|c cs IH]; intros b Hch.
  - simpl. unfold py_range. now rewrite Z.sub_diag.
  - destruct Hch as [Hbc Hch]. cbn [length seq flat_map].
    rewrite <- seq_shift, flat_map_map.
    rewrite flat_map_ext_in with (g := range_from_base c cs).
    + rewrite IH by exact Hch.
      unfold range_from_base at 1. cbn [nth].
      pose proof (chain_last cs c Hch) as Hl.
      rewrite py_range_app by lia.
      now rewrite last_cons.
    + intros k _. unfold range_from_base. destruct k; reflexivity.
Qed.

Section Tiling.
Context {signal : Type}.

Lemma chain_cumsum_from (ds : list (WindowsDataset signal)) (s : Z) :
  chain s (cumsum_from s ds).
Proof.
  revert s. induction ds as [|d ds IH]; intros s; simpl; [exact I|].
  split.
  - unfold WindowsDataset_len. lia.
  - replace (WindowsDataset_len d + s) with (s + WindowsDataset_len d) by lia.
    apply IH.
Qed.

Lemma recording_ranges_tile (ds : list (WindowsDataset signal)) :
  flat_map (recording_range (cumsum ds)) (py_range 0 (Z.of_nat (length ds)))
  = py_range 0 (last (cumsum ds) 0).
Proof.
  rewrite <- ranges_tile by apply chain_cumsum_from.
  unfold cumsum. rewrite length_cumsum_from.
  unfold py_range. rewrite Z.sub_0_r, Nat2Z.id, flat_map_map.
  apply flat_map_ext_in. intros k _.
  unfold recording_range, range_from_base, cumulative_at.
  destruct (Z.ltb_spec (0 + Z.of_nat k) 0); [lia|].
  replace (Z.to_nat (0 + Z.of_nat k)) with k by lia.
  destruct k as [|k].
  - reflexivity.
  - destruct (Z.ltb_spec (0 + Z.of_nat (S k) - 1) 0); [lia|].
    now replace (Z.to_nat (0 + Z.of_nat (S k) - 1)) with k by lia.
Qed.

End Tiling.

(** ** Grouping the rows of the table *)

Lemma in_unique (l : list cell) (x : cell) : In x (unique l) <-> In x l.
Proof.
  induction l as [|a l IH]; simpl; [tauto|].
  rewrite filter_In, IH, negb_true_iff, cell_eqb_neq.
  destruct (cell_eqb x a) eqn:E.
  - apply cell_eqb_eq in E. subst. tauto.
  - apply cell_eqb_neq in E. split; [tauto|].
    intros [H|H]; [now left | right; tauto].
Qed.

Lemma NoDup_unique (l : list cell) : NoDup (unique l).
Proof.
  induction l as [|a l IH]; simpl; constructor.
  - rewrite filter_In, negb_true_iff, cell_eqb_neq. tauto.
  - now apply NoDup_filter.
Qed.

Lemma insert_sorted_perm (a : cell) (l : list cell) :
  Permutation (insert_sorted a l) (a :: l).
Proof.
  induction l as [|b l IH]; simpl; [reflexivity|].
  destruct (cell_leb a b); [reflexivity|].
  rewrite IH. apply perm_swap.
Qed.

Lemma sort_cells_perm (l : list cell) : Permutation (sort_cells l) l.
Proof.
  induction l as [|a l IH]; simpl; [reflexivity|].
  rewrite insert_sorted_perm. now constructor.
Qed.

Lemma NoDup_group_names (vals : list cell) : NoDup (sort_cells (unique vals)).
Proof.
  eapply Permutation_NoDup; [symmetry; apply sort_cells_perm | apply NoDup_unique].
Qed.

Lemma in_group_names (vals : list cell) (x : cell) :
  In x (sort_cells (unique vals)) <-> In x vals.
Proof.
  split; intros H.
  - apply in_unique. eapply Permutation_in; [apply sort_cells_perm | exact H].
  - eapply Permutation_in; [symmetry; apply sort_cells_perm|]. now apply in_unique.
Qed.

Section Partition.
Context {X : Type}.
Variable cls : X -> cell.

Lemma insert_into_group (keys : list cell) (k0 : cell) (x : X) (g : cell -> list X) :
  NoDup keys -> In k0 keys ->
  Permutation
    (flat_map (fun key => if cell_eqb k0 key then x :: g key else g key) keys)
    (x :: flat_map g keys).
Proof.
  induction keys as [|k keys IH]; intros Hnd Hin; [contradiction|].
  inversion Hnd as [|? ? Hk Hnd']; subst. cbn [flat_map].
  destruct (cell_eqb k0 k) eqn:E.
  - apply cell_eqb_eq in E. subst k0. simpl. constructor.
    rewrite flat_map_ext_in with (g := g); [reflexivity|].
    intros key Hkey. destruct (cell_eqb k key) eqn:E'; [|reflexivity].
    apply cell_eqb_eq in E'. subst. contradiction.
  - apply cell_eqb_neq in E. destruct Hin as [->|Hin]; [contradiction|].
    rewrite (IH Hnd' Hin). symmetry. apply Permutation_middle.
Qed.

(** Filtering a list by each key in turn rearranges the list, when every
    element has one of the keys. *)
Lemma groups_rearrange (keys : list cell) (L : list X) :
  NoDup keys -> (forall x, In x L -> In (cls x) keys) ->
  Permutation (flat_map (fun key => filter (fun x => cell_eqb (cls x) key) L) keys) L.
Proof.
  intros Hnd. induction L as [|x L IH]; intros Hin.
  - simpl. clear Hnd Hin. induction keys as [|k keys IHk]; simpl; [constructor | exact IHk].
  - cbn [filter].
    rewrite insert_into_group with
      (k0 := cls x) (g := fun key => filter (fun x => cell_eqb (cls x) key) L).
    + constructor. apply IH. intros y Hy. apply Hin. now right.
    + exact Hnd.
    + apply Hin. now left.
Qed.

End Partition.

Lemma map_flat_map {A B C : Type} (f : B -> C) (g : A -> list B) (l : list A) :
  map f (flat_map g l) = flat_map (fun a => map f (g a)) l.
Proof.
  induction l as [|a l IH]; simpl; [reflexivity|]. now rewrite map_app, IH.
Qed.

Lemma labels_rearrange (index : list Z) (vals : list cell) :
  length index = length vals ->
  Permutation (flat_map (labels_of index vals) (sort_cells (unique vals))) index.
Proof.
  intros Hlen. unfold labels_of.
  rewrite <- (map_flat_map fst
                (fun key => filter (fun lv : Z * cell => cell_eqb (snd lv) key)
                                   (combine index vals))).
  apply Permutation_trans with (map fst (combine index vals)).
  - apply Permutation_map. apply (groups_rearrange (fun lv : Z * cell => snd lv)).
    + apply NoDup_group_names.
    + intros [k v] Hin. simpl. apply in_group_names.
      eapply in_combine_r. exact Hin.
  - now rewrite map_fst_combine by exact Hlen.
Qed.

Lemma labels_in_index (index : list Z) (vals : list cell) (key : cell) (k : Z) :
  In k (labels_of index vals key) -> In k index.
Proof.
  unfold labels_of. rewrite in_map_iff. intros [[k' v] [<- Hin]].
  apply filter_In in Hin. destruct Hin as [Hin _]. simpl.
  eapply in_combine_l. exact Hin.
Qed.

Lemma labels_nonempty (index : list Z) (vals : list cell) (key : cell) :
  length index = length vals -> In key vals -> labels_of index vals key <> [].
Proof.
  revert index. induction vals as [|v vals IH]; intros index Hlen Hin; [contradiction|].
  destruct index as [|k index]; [discriminate|].
  unfold labels_of. cbn [combine filter snd].
  destruct (cell_eqb v key) eqn:E; [discriminate|].
  destruct Hin as [->|Hin]; [now rewrite cell_eqb_refl in E|].
  apply IH; [simpl in Hlen; lia | exact Hin].
Qed.

(** ** The split by a field of a MOABB dataset *)

Lemma flat_map_flat_map {A B C : Type} (f : B -> list C) (g : A -> list B) (l : list A) :
  flat_map f (flat_map g l) = flat_map (fun a => flat_map f (g a)) l.
Proof.
  induction l as [|a l IH]; simpl; [reflexivity|]. now rewrite flat_map_app, IH.
Qed.

Lemma length_enumerate_from {A : Type} (l : list A) (i : Z) :
  length (enumerate_from i l) = length l.
Proof.
  rewrite <- (length_map snd). now rewrite enumerate_from_snd.
Qed.

Lemma contains_lookup (cols : list (string * list cell)) (k : string) :
  existsb (String.eqb k) (map fst cols) = true ->
  exists vals, lookup_column cols k = Some vals /\ In (k, vals) cols.
Proof.
  induction cols as [|[c vals] cols IH]; simpl; [discriminate|].
  rewrite (String.eqb_sym k c).
  destruct (String.eqb c k) eqn:E; simpl.
  - intros _. apply String.eqb_eq in E. subst. eauto.
  - intros H. destruct (IH H) as [v [Hv Hin]]. eauto.
Qed.

Section FieldSplit.
Context {raw signal : Type}.
Variable windower : BaseDataset raw -> list (epoch signal).

Lemma moabb_fields (data : moabb_data raw) (ds : ConcatDataset signal) :
  MOABBDataset_init windower data = Ok ds ->
  cumulative_sizes ds = cumsum (datasets ds)
  /\ df_index (info ds) = py_range 0 (Z.of_nat (length (datasets ds)))
  /\ forall k vals, In (k, vals) (df_columns (info ds)) ->
                    length vals = length (datasets ds).
Proof.
  unfold MOABBDataset_init, _fetch_and_unpack_moabb_data.
  set (rows := flat_map _ data). intros Hinit.
  apply init_fields in Hinit. destruct Hinit as (Hds & Hcs & Hinfo & _).
  destruct ds as [dss cs inf]. cbn [datasets cumulative_sizes info] in *.
  subst dss cs inf.
  split; [reflexivity|]. split.
  - cbn [df_index]. unfold range_index, enumerate.
    now rewrite length_map, length_enumerate_from, length_map.
  - cbn [df_columns]. unfold enumerate.
    rewrite length_map, length_enumerate_from, length_map.
    intros k vals [H|[H|[H|[]]]]; inversion H; subst; now rewrite length_map.
Qed.

(** X12. For a MOABB dataset of at least two recordings, the split by a column
    of the table returns one index set per distinct value of the column
    (named by the value, names sorted), and the index sets taken together
    are a rearrangement of [[0, total)]: no index is missing and none occurs
    twice. *)
Lemma split_by_field_partition (data : moabb_data raw) (ds : ConcatDataset signal)
  (p : string) :
  MOABBDataset_init windower data = Ok ds ->
  (2 <= length (datasets ds))%nat ->
  df_contains (info ds) (Some p) = true ->
  exists vals r,
    df_getitem (info ds) p = Ok vals
    /\ split ds (Some p) None = Ok r
    /\ map fst r = sort_cells (unique vals)
    /\ Permutation (flat_map (fun s : cell * Subset signal =>
                                nd_data (sub_indices (snd s))) r)
                   (py_range 0 (ConcatDataset_len ds)).
Proof.
  intros Hinit Hn Hp.
  destruct (moabb_fields data ds Hinit) as (Hcs & Hidx & Hcols).
  destruct (contains_lookup _ _ Hp) as [vals [Hlk Hin]].
  assert (Hlen : length (df_index (info ds)) = length vals).
  { rewrite Hidx, length_py_range, (Hcols _ _ Hin). lia. }
  set (keys := sort_cells (unique vals)).
  set (labels := labels_of (df_index (info ds)) vals).
  set (rr := recording_range (cumulative_sizes ds)).
  set (arr := fun g : list Z =>
                mk_ndarray (if existsb is_empty (map rr g) then Np.float64 else Np.int64)
                           (flat_map rr g)).
  assert (Hitems : NoDup (map fst (map (fun key => (key, labels key)) keys))).
  { rewrite map_map. simpl. rewrite map_id. apply NoDup_group_names. }
  assert (Hsplit : split ds (Some p) None
                   = Ok (combine keys (map (mk_Subset ds) (map arr (map labels keys))))).
  { unfold split, _split_ids. cbn [is_none orb assert bind]. rewrite Hp.
    cbn [bind]. unfold groupby, df_getitem. rewrite Hlk. cbn [bind].
    fold keys. fold labels.
    rewrite (fold_dict_set_distinct (map (fun key => (key, labels key)) keys) [])
      by exact Hitems.
    cbn [app assert bind]. rewrite split_core by exact Hitems.
    rewrite !map_map. cbn [fst snd]. rewrite map_id.
    rewrite map_m_ok with (g := arr).
    - cbn [bind]. now rewrite !map_map.
    - apply Forall_forall. intros g Hg. apply in_map_iff in Hg.
      destruct Hg as [key [<- Hkey]].
      assert (Hv : Forall (fun k => 0 <= k < Z.of_nat (length (cumulative_sizes ds)))
                          (labels key)).
      { apply Forall_forall. intros k Hk. apply labels_in_index in Hk.
        rewrite Hidx in Hk. apply in_py_range in Hk.
        rewrite Hcs. unfold cumsum. rewrite length_cumsum_from. exact Hk. }
      rewrite supercrop_ids_of_valid by exact Hv.
      destruct (labels key) as [|k ks] eqn:Hl.
      + exfalso. apply (labels_nonempty (df_index (info ds)) vals key Hlen);
          [now apply in_group_names | exact Hl].
      + rewrite Hcs. unfold cumsum. rewrite length_cumsum_from.
        destruct (Z.leb_spec 2 (Z.of_nat (length (datasets ds)))); [|lia].
        unfold arr, rr. now rewrite Hcs. }
  exists vals, (combine keys (map (mk_Subset ds) (map arr (map labels keys)))).
  split; [unfold df_getitem; now rewrite Hlk|]. split; [exact Hsplit|].
  assert (Hl2 : length keys = length (map (mk_Subset ds) (map arr (map labels keys)))).
  { now rewrite !length_map. }
  split; [now apply map_fst_combine|].
  rewrite <- (flat_map_map (fun s => nd_data (sub_indices s)) snd).
  rewrite map_snd_combine by exact Hl2.
  rewrite !flat_map_map. cbn [sub_indices nd_data arr].
  rewrite <- (flat_map_flat_map rr labels).
  unfold ConcatDataset_len, rr. rewrite Hcs.
  rewrite <- recording_ranges_tile.
  apply Permutation_flat_map.
  rewrite <- Hidx. apply labels_rearrange. exact Hlen.
Qed.

End FieldSplit.

(** What a rearrangement of [[0, total)] means for the index sets: every
    index of the range is in some set, every member of a set is in the
    range, and two sets at different places share no index. *)
Lemma rearrangement_is_partition {S : Type} (f : S -> list Z) (r : list S) (total : Z) :
  Permutation (flat_map f r) (py_range 0 total) ->
  (forall x, 0 <= x < total <-> exists s, In s r /\ In x (f s))
  /\ (forall l1 s1 l2 s2 l3 x,
        r = l1 ++ s1 :: l2 ++ s2 :: l3 -> In x (f s1) -> In x (f s2) -> False).
Proof.
  intros HP. split.
  - intros x. rewrite <- in_py_range, <- in_flat_map. split; apply Permutation_in;
      [symmetry; exact HP | exact HP].
  - intros l1 s1 l2 s2 l3 x -> H1 H2.
    assert (Hnd : NoDup (flat_map f (l1 ++ s1 :: l2 ++ s2 :: l3))).
    { eapply Permutation_NoDup; [symmetry; exact HP | apply py_range_NoDup]. }
    rewrite flat_map_app in Hnd. apply NoDup_app_remove_l in Hnd.
    cbn [flat_map] in Hnd. apply in_split in H1. destruct H1 as (a & b & E).
    rewrite E in Hnd. rewrite <- !app_assoc in Hnd. apply NoDup_app_remove_l in Hnd.
    cbn [app] in Hnd. inversion Hnd as [|? ? Hx _]; subst. apply Hx.
    apply in_or_app. right. rewrite flat_map_app. apply in_or_app. right.
    cbn [flat_map]. apply in_or_app. now left.
Qed.

(* ================================================================== *)
(** * Further properties of the classifier *)

Section LoaderRun.
Context {row : Type}.
Variable cast : torch_dtype -> row -> row.

Lemma loader_step_not_processable (self : net row) (b : batch row) :
  processable b = false -> exists e, loader_step cast self b = Raise e.
Proof.
  unfold processable, loader_step.
  destruct b as [|x [|y [|i [|z rest]]]]; intros H; simpl; eauto;
    destruct x; simpl in *; try discriminate;
    destruct y; simpl in *; try discriminate; eauto.
Qed.

Lemma slot_after_step (self : net row) (b : batch row) :
  processable b = true ->
  _last_supercrop_inds (stash self (skipn 2 b))
  = slot_after (_last_supercrop_inds self) [b].
Proof.
  unfold processable.
  destruct b as [|x [|y [|i [|z rest]]]]; try discriminate; reflexivity.
Qed.

(** X1. The loader on a whole stream.  It never touches the callbacks; it
    finishes without exception exactly when every batch is processable, and
    then yields one pair per batch and leaves in the slot the third element
    of the last three-element batch (the earlier ones are overwritten, a
    stream without such a batch leaves the slot as it was).  When it stops
    early it has yielded fewer batches than the stream holds. *)
Theorem loader_run (self : net row) (loader : list (batch row)) :
  let it := ThrowAwayIndexLoader_iter cast self loader in
  callbacks (after it) = callbacks self
  /\ heap (after it) = heap self
  /\ (raised it = None <-> forallb processable loader = true)
  /\ (raised it = None ->
      length (emitted it) = length loader
      /\ _last_supercrop_inds (after it) = slot_after (_last_supercrop_inds self) loader)
  /\ (raised it <> None -> (length (emitted it) < length loader)%nat).
Proof.
  revert self. induction loader as [|b loader IH]; intros self.
  - simpl. repeat split; auto; intros; try reflexivity; congruence.
  - cbn zeta. cbn [ThrowAwayIndexLoader_iter forallb].
    destruct (processable b) eqn:Hb.
    + destruct (loader_step_processable cast self b Hb) as [out [-> Hout]].
      specialize (IH (stash self (skipn 2 b))). cbn zeta in IH.
      destruct IH as (Hc & Hh & Hr & Hok & Hbad).
      cbn [emitted after raised andb].
      assert (Hcs : callbacks (stash self (skipn 2 b)) = callbacks self
                    /\ heap (stash self (skipn 2 b)) = heap self).
      { unfold stash. destruct (skipn 2 b) as [|i [|]]; split; reflexivity. }
      destruct Hcs as [Hcs Hhs].
      split; [congruence|]. split; [congruence|]. split; [exact Hr|]. split.
      * intros Hn. destruct (Hok Hn) as [Hl Hs].
        split; [cbn [length]; now rewrite Hl|].
        rewrite Hs, slot_after_step by exact Hb. reflexivity.
      * intros Hn. specialize (Hbad Hn). cbn [length]. lia.
    + destruct (loader_step_not_processable self b Hb) as [e ->].
      cbn [emitted after raised andb].
      assert (Hkeep : callbacks (match b with
                                 | [_; _; i] => set_last self (Some i)
                                 | _ => self
                                 end) = callbacks self
                      /\ heap (match b with
                               | [_; _; i] => set_last self (Some i)
                               | _ => self
                               end) = heap self).
      { destruct b as [|x [|y [|i [|z rest]]]]; split; reflexivity. }
      destruct Hkeep as [Hkc Hkh].
      split; [exact Hkc|]. split; [exact Hkh|].
      repeat split; try discriminate. simpl. lia.
Qed.

End LoaderRun.

Section ValidationLoop.
Context {row : Type}.
Variable cast : torch_dtype -> row -> row.

Lemma hook_after_stash (self : net row) (i : value row) :
  has_provenance_consumer self = true ->
  exists self',
    on_batch_end (set_last self (Some i)) false = Ok self'
    /\ callbacks self' = callbacks self
    /\ _last_supercrop_inds self' = None
    /\ epoch_cbs self' = epoch_cbs self
    /\ forall r c, nth_error (heap self) r = Some c ->
         nth_error (heap self') r = Some (logged c (repeat i (registrations self r))).
Proof.
  intros Hc.
  assert (Hc1 : has_provenance_consumer (set_last self (Some i)) = true) by exact Hc.
  rewrite on_batch_end_eval by exact Hc1. simpl _last_supercrop_inds.
  eexists. split; [reflexivity|]. split; [reflexivity|]. split; [reflexivity|]. split.
  - unfold set_last, set_heap. simpl. apply epoch_cbs_heap.
    intros c. apply selected_fold_append.
  - intros r c Hr. simpl. rewrite nth_error_fold_append, Hr. reflexivity.
Qed.

(** X2. Over a stream of processable three-element batches, with a registered
    provenance consumer, the validation loop succeeds and every callback
    object ends with the provenance of all batches appended to its log in
    stream order, once per registration; no provenance is lost or
    delivered out of order, and the slot is left empty. *)
Theorem validation_loop_delivers (self : net row) (loader : list (batch row)) :
  has_provenance_consumer self = true ->
  Forall (fun b => processable b = true /\ length b = 3%nat) loader ->
  exists self',
    validation_loop cast self loader = Ok self'
    /\ callbacks self' = callbacks self
    /\ _last_supercrop_inds self'
       = match loader with [] => _last_supercrop_inds self | _ => None end
    /\ forall r c, nth_error (heap self) r = Some c ->
         nth_error (heap self') r
         = Some (logged c (deliveries (registrations self r) loader)).
Proof.
  intros Hc Hall. revert self Hc.
  induction Hall as [|b loader [Hb Hl] _ IH]; intros self Hc.
  - exists self. repeat split. intros r c Hr. simpl. now rewrite logged_nil.
  - destruct b as [|x [|y [|i [|z rest]]]]; try discriminate.
    cbn [validation_loop].
    destruct (loader_step_processable cast self [x; y; i] Hb) as [out [-> _]].
    cbn [bind fst skipn stash].
    destruct (hook_after_stash self i Hc) as (s1 & -> & Hcb & Hslot & Hep & Hheap).
    cbn [bind].
    assert (Hc1 : has_provenance_consumer s1 = true).
    { unfold has_provenance_consumer. now rewrite Hep. }
    destruct (IH s1 Hc1) as (s2 & -> & Hcb2 & Hslot2 & Hheap2).
    exists s2. split; [reflexivity|]. split; [congruence|]. split.
    + rewrite Hslot2, Hslot. now destruct loader.
    + intros r c Hr. rewrite (Hheap2 r _ (Hheap r c Hr)).
      rewrite logged_logged. unfold registrations. rewrite Hep.
      unfold deliveries. cbn [flat_map provenance_of]. now rewrite app_nil_r.
Qed.

(** X3. With a registered provenance consumer and an empty slot at the start,
    a stream of processable batches that holds a two-element batch makes
    the validation loop fail with the assertion error: a batch without
    provenance never goes unnoticed. *)
Theorem validation_loop_detects_pair (self : net row) (loader : list (batch row)) :
  has_provenance_consumer self = true ->
  _last_supercrop_inds self = None ->
  forallb processable loader = true ->
  (exists b, In b loader /\ length b = 2%nat) ->
  validation_loop cast self loader = Raise AssertionError.
Proof.
  revert self. induction loader as [|b loader IH]; intros self Hc Hs Hall [b0 [Hin Hl]].
  - contradiction.
  - cbn [forallb] in Hall. apply andb_true_iff in Hall. destruct Hall as [Hb Hall].
    cbn [validation_loop].
    destruct (loader_step_processable cast self b Hb) as [out [-> _]].
    cbn [bind fst].
    destruct b as [|x [|y [|i [|z rest]]]]; try discriminate.
    + (* a pair: nothing is stashed and the hook finds the slot empty *)
      cbn [skipn stash]. rewrite on_batch_end_eval by exact Hc. now rewrite Hs.
    + cbn [skipn stash].
      destruct (hook_after_stash self i Hc) as (s1 & -> & Hcb & Hslot & Hep & _).
      cbn [bind]. apply IH.
      * unfold has_provenance_consumer. now rewrite Hep.
      * exact Hslot.
      * exact Hall.
      * destruct Hin as [<-|Hin]; [discriminate|]. eauto.
Qed.

(** The cases in which the hook does nothing or cannot run. *)
Lemma on_batch_end_idle (self : net row) :
  on_batch_end self true = Ok self
  /\ (callbacks self = None -> on_batch_end self false = Raise TypeError)
  /\ (callbacks self <> None -> has_provenance_consumer self = false ->
      on_batch_end self false = Ok self)
  /\ (callbacks self = Some [] -> on_batch_end self false = Ok self).
Proof.
  split; [reflexivity|]. split; [|split].
  - intros H. unfold on_batch_end. now rewrite H.
  - unfold has_provenance_consumer, epoch_cbs, on_batch_end.
    destruct (callbacks self) as [user|]; [|congruence]. intros _ H. simpl.
    destruct (filter _ _); [reflexivity | discriminate].
  - intros H. unfold on_batch_end. now rewrite H.
Qed.

Lemma stash_keeps_callbacks (self : net row) (rest : list (value row)) :
  callbacks (stash self rest) = callbacks self
  /\ has_provenance_consumer (stash self rest) = has_provenance_consumer self.
Proof.
  unfold stash. destruct rest as [|i [|]]; split; reflexivity.
Qed.

Lemma set_last_stash (self : net row) (rest : list (value row)) (v : option (value row)) :
  set_last (stash self rest) v = set_last self v.
Proof. unfold stash. destruct rest as [|i [|]]; reflexivity. Qed.

(** X4. A validation loop without a registered provenance consumer.  When
    callbacks are given and none of them consumes provenance, the loop
    returns for every stream of processable batches, two-element batches
    included: the hook never takes the stash, so no callback object changes
    and the slot ends with the provenance of the last three-element batch
    (or as it was).  With [callbacks=None] the loop raises [TypeError] at
    the hook of the first batch. *)
Theorem validation_loop_without_consumer (self : net row) (loader : list (batch row)) :
  forallb processable loader = true ->
  (callbacks self <> None -> has_provenance_consumer self = false ->
   validation_loop cast self loader
   = Ok (set_last self (slot_after (_last_supercrop_inds self) loader)))
  /\ (callbacks self = None -> loader <> [] ->
      validation_loop cast self loader = Raise TypeError).
Proof.
  intros Hall. split.
  - revert self Hall. induction loader as [|b loader IH]; intros self Hall Hcb Hno.
    + now destruct self.
    + cbn [forallb] in Hall. apply andb_true_iff in Hall. destruct Hall as [Hb Hall].
      cbn [validation_loop].
      destruct (loader_step_processable cast self b Hb) as [out [-> _]].
      cbn [bind fst].
      destruct (stash_keeps_callbacks self (skipn 2 b)) as [Hc Hp].
      destruct (on_batch_end_idle (stash self (skipn 2 b))) as (_ & _ & Hidle & _).
      rewrite Hidle by (rewrite ?Hc, ?Hp; assumption). cbn [bind].
      rewrite IH by (rewrite ?Hc, ?Hp; assumption).
      rewrite set_last_stash, slot_after_step by exact Hb. reflexivity.
  - intros Hnone Hne. destruct loader as [|b loader]; [congruence|].
    cbn [forallb] in Hall. apply andb_true_iff in Hall. destruct Hall as [Hb _].
    cbn [validation_loop].
    destruct (loader_step_processable cast self b Hb) as [out [-> _]].
    cbn [bind fst].
    destruct (stash_keeps_callbacks self (skipn 2 b)) as [Hc _].
    destruct (on_batch_end_idle (stash self (skipn 2 b))) as (_ & Hbad & _).
    rewrite Hbad by (rewrite Hc; exact Hnone). reflexivity.
Qed.

End ValidationLoop.

Lemma for_each_raise {A S : Type} (body : S -> A -> result S) (l : list A) (a : A) (s : S) :
  In a l -> (forall s, exists e, body s a = Raise e) ->
  exists e, for_each body l s = Raise e.
Proof.
  revert s. induction l as [|b l IH]; intros s Hin Hbad; [contradiction|].
  simpl. destruct (body s b) as [s'|e] eqn:Hb; simpl; [|eauto].
  destruct Hin as [->|Hin].
  - destruct (Hbad s) as [e He]. congruence.
  - now apply IH.
Qed.

Section PredictorEdges.
Context {row : Type}.
Variable cast : torch_dtype -> row -> row.
Variable item : torch_dtype -> row -> value row.
Variable predict_proba : value row -> result (list row).

Lemma predict_body_malformed (acc : collected row) (b : batch row) :
  length b <> 3%nat -> predict_body item predict_proba acc b = Raise ValueError.
Proof.
  destruct b as [|x [|y [|i [|z rest]]]]; simpl; intros H; try reflexivity.
  contradiction.
Qed.

(** X5. The predictor returns nothing for an iterator without batches
    ([np.concatenate] of an empty list raises [ValueError]) and for an
    iterator that yields a batch which does not have three elements (the
    unpacking [for X, y, i in ...] raises [ValueError]): it cannot run over
    batches from which the provenance was dropped. *)
Theorem predict_rejects (self : net row) (iterator : list (batch row)) :
  (iterator = [] ->
   predict_with_supercrop_inds_and_ys cast item self predict_proba iterator
   = (Raise ValueError, []))
  /\ (forall b rest, iterator = b :: rest -> length b <> 3%nat ->
      predict_with_supercrop_inds_and_ys cast item self predict_proba iterator
      = (Raise ValueError, []))
  /\ ((exists b, In b iterator /\ length b <> 3%nat) ->
      exists e, predict_with_supercrop_inds_and_ys cast item self predict_proba iterator
                = (Raise e, [])).
Proof.
  split; [|split].
  - intros ->. reflexivity.
  - intros b rest -> Hb. unfold predict_with_supercrop_inds_and_ys, get_iterator.
    cbn [emitted for_each]. now rewrite predict_body_malformed.
  - intros [b [Hin Hb]]. unfold predict_with_supercrop_inds_and_ys, get_iterator.
    cbn [emitted].
    destruct (for_each_raise (predict_body item predict_proba) iterator b
                (mk_collected [] [] [] []) Hin) as [e ->].
    + intros s. exists ValueError. now apply predict_body_malformed.
    + simpl. eauto.
Qed.


End PredictorEdges.


Lemma validation_loop_delivers_witness :
  has_provenance_consumer ex_net = true
  /\ Forall (fun b : batch Z => processable b = true /\ length b = 3%nat)
            [[x0; y0; p0]; [x1; y1; p0]]
  /\ exists self', validation_loop ex_cast ex_net [[x0; y0; p0]; [x1; y1; p0]] = Ok self'.
Proof.
  assert (Hall : Forall (fun b : batch Z => processable b = true /\ length b = 3%nat)
                        [[x0; y0; p0]; [x1; y1; p0]]).
  { repeat constructor. }
  split; [reflexivity|]. split; [exact Hall|].
  destruct (validation_loop_delivers ex_cast ex_net _ eq_refl Hall) as [s [Hs _]].
  exists s. exact Hs.
Defined.

Lemma validation_loop_without_consumer_witness :
  forallb processable [[x0; y0; p0]; [x1; y1]] = true
  /\ validation_loop ex_cast (mk_net (Some []) [] None) [[x0; y0; p0]; [x1; y1]]
     = Ok (mk_net (Some []) [] (Some p0))
  /\ validation_loop ex_cast (mk_net None [] None) [[x0; y0; p0]; [x1; y1]]
     = Raise TypeError.
Proof.
  split; [reflexivity|]. split.
  - apply (proj1 (validation_loop_without_consumer ex_cast (mk_net (Some []) [] None)
                    [[x0; y0; p0]; [x1; y1]] eq_refl)); [discriminate | reflexivity].
  - apply (proj2 (validation_loop_without_consumer ex_cast (mk_net None [] None)
                    [[x0; y0; p0]; [x1; y1]] eq_refl)); [reflexivity | discriminate].
Defined.

Lemma validation_loop_detects_pair_witness :
  has_provenance_consumer ex_net = true
  /\ _last_supercrop_inds ex_net = None
  /\ forallb processable [[x0; y0; p0]; [x1; y1]] = true
  /\ (exists b, In b [[x0; y0; p0]; [x1; y1]] /\ length b = 2%nat)
  /\ validation_loop ex_cast ex_net [[x0; y0; p0]; [x1; y1]] = Raise AssertionError.
Proof.
  assert (He : exists b, In b [[x0; y0; p0]; [x1; y1]] /\ length b = 2%nat).
  { exists [x1; y1]. split; [right; left; reflexivity | reflexivity]. }
  split; [reflexivity|]. split; [reflexivity|]. split; [reflexivity|].
  split; [exact He|].
  exact (validation_loop_detects_pair ex_cast ex_net [[x0; y0; p0]; [x1; y1]]
           eq_refl eq_refl eq_refl He).
Defined.

(* ================================================================== *)
(** * Further properties of the datasets *)

(** ** Recording indices: negative, out of range, all in order *)

Lemma py_index_normalize {A : Type} (l : list A) (k : Z) :
  - Z.of_nat (length l) <= k < Z.of_nat (length l) ->
  py_index l k = py_index l (normalize_index (Z.of_nat (length l)) k).
Proof.
  intros Hk. unfold normalize_index.
  destruct (Z.ltb_spec k 0) as [Hneg|Hpos]; [|reflexivity].
  destruct (py_index_wraps l k) as [a [Ha ->]]; [lia|].
  destruct (py_index_in_range l (k + Z.of_nat (length l))) as [a' [Ha' ->]]; [lia|].
  congruence.
Qed.

Lemma window_range_normalize (cs : list Z) (k : Z) :
  - Z.of_nat (length cs) <= k < Z.of_nat (length cs) ->
  window_range cs k = window_range cs (normalize_index (Z.of_nat (length cs)) k).
Proof.
  intros Hk. unfold window_range, getitem, slice_but_last.
  rewrite insert_front_data.
  assert (Hl : length (0 :: removelast cs) = length cs).
  { cbn [length]. rewrite length_removelast. destruct cs; simpl in *; lia. }
  rewrite (py_index_normalize (0 :: removelast cs)) by (rewrite Hl; exact Hk).
  rewrite (py_index_normalize cs k) by exact Hk.
  now rewrite Hl.
Qed.

Lemma window_range_out_of_range (cs : list Z) (k : Z) :
  k < - Z.of_nat (length cs) \/ Z.of_nat (length cs) <= k ->
  cs <> [] ->
  window_range cs k = Raise IndexError.
Proof.
  intros Hk Hne. unfold window_range, getitem, slice_but_last.
  rewrite insert_front_data.
  assert (Hl : length (0 :: removelast cs) = length cs).
  { cbn [length]. rewrite length_removelast. destruct cs; simpl in *; [congruence | lia]. }
  rewrite py_index_out_of_range; [reflexivity|]. now rewrite Hl.
Qed.

Lemma map_m_ext_in {A B : Type} (f g : A -> result B) (l : list A) :
  (forall a, In a l -> f a = g a) -> map_m f l = map_m g l.
Proof.
  induction l as [|a l IH]; intros H; simpl; [reflexivity|].
  rewrite H by now left. rewrite IH; [reflexivity|].
  intros a' Ha'. apply H. now right.
Qed.

Lemma map_m_map {A B C : Type} (f : B -> result C) (g : A -> B) (l : list A) :
  map_m f (map g l) = map_m (fun a => f (g a)) l.
Proof.
  induction l as [|a l IH]; simpl; [reflexivity|]. now rewrite IH.
Qed.

Lemma map_m_first_raise {A B : Type} (f : A -> result B) (l : list A) (e : exn) :
  (exists a, In a l /\ f a = Raise e) ->
  (forall a, In a l -> is_ok (f a) = true \/ f a = Raise e) ->
  map_m f l = Raise e.
Proof.
  induction l as [|b l IH]; intros [a [Hin Ha]] Hall; [contradiction|].
  simpl. destruct (Hall b (or_introl eq_refl)) as [Hb|Hb].
  - destruct (f b) as [v|e'] eqn:Hfb; [|discriminate]. simpl.
    destruct Hin as [->|Hin]; [congruence|].
    rewrite IH; [reflexivity | eauto |].
    intros a' Ha'. apply Hall. now right.
  - now rewrite Hb.
Qed.

(** X7. In [_supercrop_ids_of_windows] a recording index in [[-n, 0)] counts
    from the end: it selects the same windows as the index increased by the
    number [n] of recordings.  With at least two recordings, a list holding
    an index outside [[-n, n)] raises [IndexError]. *)
Theorem supercrop_ids_index_semantics (cumulative_sizes : list Z) (windows_is : list Z) :
  2 <= Z.of_nat (length cumulative_sizes) ->
  (Forall (fun k => - Z.of_nat (length cumulative_sizes) <= k
                    < Z.of_nat (length cumulative_sizes)) windows_is ->
   _supercrop_ids_of_windows cumulative_sizes windows_is
   = _supercrop_ids_of_windows cumulative_sizes
       (map (normalize_index (Z.of_nat (length cumulative_sizes))) windows_is))
  /\ ((exists k, In k windows_is
                 /\ (k < - Z.of_nat (length cumulative_sizes)
                     \/ Z.of_nat (length cumulative_sizes) <= k)) ->
      _supercrop_ids_of_windows cumulative_sizes windows_is = Raise IndexError).
Proof.
  intros Hn. split.
  - intros Hv. rewrite !supercrop_ids_unfold. rewrite map_m_map.
    rewrite map_m_ext_in with
      (g := fun a => window_range cumulative_sizes
                       (normalize_index (Z.of_nat (length cumulative_sizes)) a));
      [reflexivity|].
    intros k Hk. apply window_range_normalize.
    rewrite Forall_forall in Hv. now apply Hv.
  - intros [k [Hin Hk]]. rewrite supercrop_ids_unfold.
    rewrite (map_m_first_raise (window_range cumulative_sizes) windows_is IndexError);
      [reflexivity | |].
    + exists k. split; [exact Hin|]. apply window_range_out_of_range; [exact Hk|].
      destruct cumulative_sizes; [simpl in Hn; lia | discriminate].
    + intros a _.
      destruct (Z.lt_ge_cases a (- Z.of_nat (length cumulative_sizes))) as [Hlo|Hlo];
        [right; apply window_range_out_of_range; [lia|];
         destruct cumulative_sizes; [simpl in Hn; lia | discriminate]|].
      destruct (Z.lt_ge_cases a (Z.of_nat (length cumulative_sizes))) as [Hhi|Hhi];
        [|right; apply window_range_out_of_range; [lia|];
          destruct cumulative_sizes; [simpl in Hn; lia | discriminate]].
      left. rewrite window_range_normalize by lia.
      rewrite window_range_valid.
      * destruct (Z.leb_spec 2 (Z.of_nat (length cumulative_sizes))); [reflexivity | lia].
      * unfold normalize_index. destruct (Z.ltb_spec a 0); lia.
Qed.

Lemma supercrop_ids_index_semantics_witness :
  2 <= Z.of_nat (length [2; 3])
  /\ _supercrop_ids_of_windows [2; 3] [-1; 0] = _supercrop_ids_of_windows [2; 3] [1; 0]
  /\ _supercrop_ids_of_windows [2; 3] [0; 2] = Raise IndexError.
Proof.
  assert (Hn : 2 <= Z.of_nat (length [2; 3])) by (simpl; lia).
  split; [exact Hn|]. split.
  - apply (proj1 (supercrop_ids_index_semantics [2; 3] [-1; 0] Hn)).
    repeat constructor; simpl; lia.
  - apply (proj2 (supercrop_ids_index_semantics [2; 3] [0; 2] Hn)).
    exists 2. split; [right; left; reflexivity | right; simpl; lia].
Defined.

(** X8. Listing every recording once, in order, selects every window once, in
    order: with at least two recordings, the index array computed for the
    group [[0, 1, ..., n-1]] is [[0, 1, ..., total-1]]. *)
Theorem supercrop_ids_of_all_recordings {signal : Type}
  (all_windows_ds : list (WindowsDataset signal)) (i : DataFrame)
  (self : ConcatDataset signal) :
  ConcatDataset_init all_windows_ds i = Ok self ->
  2 <= Z.of_nat (length all_windows_ds) ->
  exists arr,
    _supercrop_ids_of_windows (cumulative_sizes self)
      (py_range 0 (Z.of_nat (length all_windows_ds))) = Ok arr
    /\ nd_data arr = py_range 0 (ConcatDataset_len self).
Proof.
  intros Hinit Hn.
  destruct (init_fields _ _ _ Hinit) as (Hds & Hcs & _ & _).
  assert (Hlen : length (cumulative_sizes self) = length all_windows_ds).
  { rewrite Hcs. apply length_cumsum_from. }
  rewrite supercrop_ids_of_valid.
  - destruct (py_range 0 (Z.of_nat (length all_windows_ds))) as [|k ks] eqn:Hr.
    { apply (f_equal (@length Z)) in Hr. rewrite length_py_range in Hr. simpl in Hr. lia. }
    rewrite <- Hr, Hlen.
    destruct (Z.leb_spec 2 (Z.of_nat (length all_windows_ds))); [|lia].
    eexists. split; [reflexivity|]. cbn [nd_data].
    unfold ConcatDataset_len. rewrite Hcs. apply recording_ranges_tile.
  - apply Forall_forall. intros k Hk. apply in_py_range in Hk. rewrite Hlen. exact Hk.
Qed.

Lemma supercrop_ids_of_all_recordings_witness :
  ConcatDataset_init ex_ds ex_info = Ok ex_self
  /\ 2 <= Z.of_nat (length ex_ds)
  /\ exists arr,
       _supercrop_ids_of_windows (cumulative_sizes ex_self)
         (py_range 0 (Z.of_nat (length ex_ds))) = Ok arr
       /\ nd_data arr = py_range 0 (ConcatDataset_len ex_self).
Proof.
  assert (Hn : 2 <= Z.of_nat (length ex_ds)) by (simpl; lia).
  split; [reflexivity|]. split; [exact Hn|].
  exact (supercrop_ids_of_all_recordings ex_ds ex_info ex_self eq_refl Hn).
Defined.

(** ** The groups of [_split_ids] *)

Lemma lookup_contains (cols : list (string * list cell)) (k : string) (vals : list cell) :
  lookup_column cols k = Some vals ->
  existsb (String.eqb k) (map fst cols) = true.
Proof.
  induction cols as [|[c v] cols IH]; simpl; [discriminate|].
  rewrite (String.eqb_sym k c). destruct (String.eqb c k); simpl; auto.
Qed.

Lemma in_labels_of (index : list Z) (vals : list cell) (key : cell) (lbl : Z) :
  In lbl (labels_of index vals key) <-> In (lbl, key) (combine index vals).
Proof.
  unfold labels_of. rewrite in_map_iff. split.
  - intros [[l v] [<- Hin]]. apply filter_In in Hin. destruct Hin as [Hin Hv].
    simpl in *. apply cell_eqb_eq in Hv. now subst.
  - intros Hin. exists (lbl, key). split; [reflexivity|].
    apply filter_In. split; [exact Hin | apply cell_eqb_refl].
Qed.

(** X9. [_split_ids] fails with the assertion error exactly when the requested
    field is no column of the table.  For a column it returns one group per
    distinct value of the column, each named by its value and named once;
    no group is empty; a group holds the index labels of exactly the rows
    with its value; and all groups together hold every index label of the
    table exactly as often as the table does. *)
Theorem split_ids_groups (df : DataFrame) (some_property : option string) :
  (df_contains df some_property = false ->
   _split_ids df some_property = Raise AssertionError)
  /\ (forall k vals,
        some_property = Some k ->
        lookup_column (df_columns df) k = Some vals ->
        length (df_index df) = length vals ->
        exists groups,
          _split_ids df some_property = Ok groups
          /\ NoDup (map fst groups)
          /\ (forall key, In key (map fst groups) <-> In key vals)
          /\ (forall key lbls, In (key, lbls) groups ->
                lbls <> []
                /\ forall lbl, In lbl lbls <-> In (lbl, key) (combine (df_index df) vals))
          /\ Permutation (flat_map snd groups) (df_index df)).
Proof.
  split.
  - intros H. unfold _split_ids. now rewrite H.
  - intros k vals -> Hlk Hlen.
    set (keys := sort_cells (unique vals)).
    set (groups := map (fun key => (key, labels_of (df_index df) vals key)) keys).
    assert (Hfst : map fst groups = keys).
    { unfold groups. rewrite map_map. simpl. apply map_id. }
    assert (Hnd : NoDup (map fst groups)).
    { rewrite Hfst. apply NoDup_group_names. }
    exists groups. split; [|split; [exact Hnd|split; [|split]]].
    + unfold _split_ids, df_contains. rewrite (lookup_contains _ _ _ Hlk).
      cbn [assert bind]. unfold groupby, df_getitem. rewrite Hlk. cbn [bind].
      fold keys. fold groups.
      now rewrite (fold_dict_set_distinct groups []) by exact Hnd.
    + intros key. rewrite Hfst. apply in_group_names.
    + intros key lbls Hin. unfold groups in Hin. apply in_map_iff in Hin.
      destruct Hin as [key' [E Hkey]]. inversion E; subst key' lbls. split.
      * apply labels_nonempty; [exact Hlen | now apply in_group_names].
      * intros lbl. apply in_labels_of.
    + unfold groups. rewrite flat_map_map. cbn [snd].
      now apply labels_rearrange.
Qed.

(** ** What [MOABBDataset.__init__] builds *)

Section MoabbInit.
Context {raw signal : Type}.
Variable windower : BaseDataset raw -> list (epoch signal).

Lemma df_row_moabb (rows : list (raw * (cell * cell * cell))) (idx : list Z)
  (j : nat) (r : raw * (cell * cell * cell)) :
  nth_error rows j = Some r ->
  df_row (mk_df idx
            [("subject"%string, map (fun r => fst (fst (snd r))) rows);
             ("session"%string, map (fun r => snd (fst (snd r))) rows);
             ("run"%string, map (fun r => snd (snd r)) rows)]) j
  = recording_info (snd r).
Proof.
  intros Hr. unfold df_row. cbn [df_columns flat_map snd fst].
  rewrite !nth_error_map, Hr. reflexivity.
Qed.

Lemma moabb_datasets_aligned (rows pre rest : list (raw * (cell * cell * cell)))
  (idx : list Z) :
  rows = pre ++ rest ->
  map (fun ir : Z * raw =>
         let base_ds :=
           mk_BaseDataset (snd ir)
             (df_row (mk_df idx
                        [("subject"%string, map (fun r => fst (fst (snd r))) rows);
                         ("session"%string, map (fun r => snd (fst (snd r))) rows);
                         ("run"%string, map (fun r => snd (snd r)) rows)])
                     (Z.to_nat (fst ir))) None in
         mk_WindowsDataset (windower base_ds) (base_info base_ds))
      (enumerate_from (Z.of_nat (length pre)) (map fst rest))
  = map (moabb_windows windower) rest.
Proof.
  revert pre. induction rest as [|r rest IH]; intros pre Hrows; [reflexivity|].
  cbn [map enumerate_from fst snd]. f_equal.
  - rewrite Nat2Z.id.
    rewrite (df_row_moabb rows idx (length pre) r).
    + reflexivity.
    + rewrite Hrows, nth_error_app2 by lia. now rewrite Nat.sub_diag.
  - replace (Z.of_nat (length pre) + 1) with (Z.of_nat (length (pre ++ [r])))
      by (rewrite length_app; simpl; lia).
    apply IH. now rewrite <- app_assoc.
Qed.

Lemma last_cumsum_from (ds : list (WindowsDataset signal)) (s d : Z) :
  last (cumsum_from s ds) d
  = match ds with
    | [] => d
    | _ => s + sum_Z (map WindowsDataset_len ds)
    end.
Proof.
  revert s d. induction ds as [|e ds IH]; intros s d; [reflexivity|].
  cbn [cumsum_from]. rewrite last_cons, IH.
  destruct ds; simpl; lia.
Qed.

(** X10. [MOABBDataset.__init__] fails with the assertion error of
    [ConcatDataset] exactly when no recording was fetched.  Otherwise the
    dataset has one WindowsDataset per recording, in the order subject,
    session, run of the fetched data; each carries the metadata of its own
    recording; the table has one row per recording, labelled by its position
    [0 .. n-1] and in the same order; and the length of the dataset is the
    total number of windows. *)
Theorem moabb_init_spec (data : moabb_data raw) :
  (moabb_rows data = [] -> MOABBDataset_init windower data = Raise AssertionError)
  /\ (moabb_rows data <> [] ->
      exists ds,
        MOABBDataset_init windower data = Ok ds
        /\ datasets ds = map (moabb_windows windower) (moabb_rows data)
        /\ cumulative_sizes ds = cumsum (datasets ds)
        /\ df_index (info ds) = py_range 0 (Z.of_nat (length (moabb_rows data)))
        /\ df_columns (info ds)
           = [("subject"%string, map (fun r => fst (fst (snd r))) (moabb_rows data));
              ("session"%string, map (fun r => snd (fst (snd r))) (moabb_rows data));
              ("run"%string, map (fun r => snd (snd r)) (moabb_rows data))]
        /\ ConcatDataset_len ds = sum_Z (map WindowsDataset_len (datasets ds))).
Proof.
  unfold MOABBDataset_init, _fetch_and_unpack_moabb_data. fold (moabb_rows data).
  set (rows := moabb_rows data). unfold enumerate.
  pose proof (moabb_datasets_aligned rows [] rows (range_index rows) eq_refl) as Ha.
  cbn [length Z.of_nat] in Ha. rewrite Ha. clear Ha.
  unfold ConcatDataset_init. split.
  - intros ->. reflexivity.
  - intros Hne. destruct rows as [|r rows'] eqn:E; [contradiction|]. rewrite <- E.
    assert (Hpos : (0 <? Z.of_nat (length (map (moabb_windows windower) rows))) = true).
    { apply Z.ltb_lt. rewrite length_map, E. simpl. lia. }
    rewrite Hpos. cbn [assert bind]. eexists. split; [reflexivity|].
    cbn [datasets cumulative_sizes info df_index df_columns].
    repeat split.
    unfold ConcatDataset_len, cumsum. cbn [cumulative_sizes].
    rewrite last_cumsum_from. rewrite E. cbn [map]. lia.
Qed.

End MoabbInit.

(** ** The split by a field where index labels are positions *)

Lemma field_split_rearranges {signal : Type} (ds : ConcatDataset signal) (p : string) :
  cumulative_sizes ds = cumsum (datasets ds) ->
  df_index (info ds) = py_range 0 (Z.of_nat (length (datasets ds))) ->
  (forall k vals, In (k, vals) (df_columns (info ds)) ->
                  length vals = length (datasets ds)) ->
  (2 <= length (datasets ds))%nat ->
  df_contains (info ds) (Some p) = true ->
  exists vals r,
    df_getitem (info ds) p = Ok vals
    /\ split ds (Some p) None = Ok r
    /\ map fst r = sort_cells (unique vals)
    /\ Permutation (flat_map (fun s : cell * Subset signal =>
                                nd_data (sub_indices (snd s))) r)
                   (py_range 0 (ConcatDataset_len ds)).
Proof.
  intros Hcs Hidx Hcols Hn Hp.
  destruct (contains_lookup _ _ Hp) as [vals [Hlk Hin]].
  assert (Hlen : length (df_index (info ds)) = length vals).
  { rewrite Hidx, length_py_range, (Hcols _ _ Hin). lia. }
  set (keys := sort_cells (unique vals)).
  set (labels := labels_of (df_index (info ds)) vals).
  set (rr := recording_range (cumulative_sizes ds)).
  set (arr := fun g : list Z =>
                mk_ndarray (if existsb is_empty (map rr g) then Np.float64 else Np.int64)
                           (flat_map rr g)).
  assert (Hitems : NoDup (map fst (map (fun key => (key, labels key)) keys))).
  { rewrite map_map. simpl. rewrite map_id. apply NoDup_group_names. }
  assert (Hsplit : split ds (Some p) None
                   = Ok (combine keys (map (mk_Subset ds) (map arr (map labels keys))))).
  { unfold split, _split_ids. cbn [is_none orb assert bind]. rewrite Hp.
    cbn [bind]. unfold groupby, df_getitem. rewrite Hlk. cbn [bind].
    fold keys. fold labels.
    rewrite (fold_dict_set_distinct (map (fun key => (key, labels key)) keys) [])
      by exact Hitems.
    cbn [app assert bind]. rewrite split_core by exact Hitems.
    rewrite !map_map. cbn [fst snd]. rewrite map_id.
    rewrite map_m_ok with (g := arr).
    - cbn [bind]. now rewrite !map_map.
    - apply Forall_forall. intros g Hg. apply in_map_iff in Hg.
      destruct Hg as [key [<- Hkey]].
      assert (Hv : Forall (fun k => 0 <= k < Z.of_nat (length (cumulative_sizes ds)))
                          (labels key)).
      { apply Forall_forall. intros k Hk. apply labels_in_index in Hk.
        rewrite Hidx in Hk. apply in_py_range in Hk.
        rewrite Hcs. unfold cumsum. rewrite length_cumsum_from. exact Hk. }
      rewrite supercrop_ids_of_valid by exact Hv.
      destruct (labels key) as [|k ks] eqn:Hl.
      + exfalso. apply (labels_nonempty (df_index (info ds)) vals key Hlen);
          [now apply in_group_names | exact Hl].
      + rewrite Hcs. unfold cumsum. rewrite length_cumsum_from.
        destruct (Z.leb_spec 2 (Z.of_nat (length (datasets ds)))); [|lia].
        unfold arr, rr. now rewrite Hcs. }
  exists vals, (combine keys (map (mk_Subset ds) (map arr (map labels keys)))).
  split; [unfold df_getitem; now rewrite Hlk|]. split; [exact Hsplit|].
  assert (Hl2 : length keys = length (map (mk_Subset ds) (map arr (map labels keys)))).
  { now rewrite !length_map. }
  split; [now apply map_fst_combine|].
  rewrite <- (flat_map_map (fun s => nd_data (sub_indices s)) snd).
  rewrite map_snd_combine by exact Hl2.
  rewrite !flat_map_map. cbn [sub_indices nd_data arr].
  rewrite <- (flat_map_flat_map rr labels).
  unfold ConcatDataset_len, rr. rewrite Hcs.
  rewrite <- recording_ranges_tile.
  apply Permutation_flat_map.
  rewrite <- Hidx. apply labels_rearrange. exact Hlen.
Qed.

(** ** What [TUHAbnormal.__init__] builds *)

Section TuhInit.
Context {raw signal : Type}.
Variable windower : BaseDataset raw -> list (epoch signal).
Variable files : list (edf_file raw).
Variable target : string.

Lemma tuh_loop (ids : list Z) (acc : list (WindowsDataset signal) * list DataFrame) :
  existsb (String.eqb target) tuh_columns = true ->
  for_each
    (fun (acc : list (WindowsDataset signal) * list DataFrame) subject_id =>
       f <- py_index files subject_id ;;
       let i := mk_df [subject_id]
                  [("age"%string, [CInt (f_age f)]);
                   ("pathological"%string, [CBool (f_pathological f)]);
                   ("gender"%string, [CStr (f_gender f)]);
                   ("session"%string, [CStr (f_session f)]);
                   ("subject"%string, [CInt subject_id])] in
       base_ds <- BaseDataset_init (f_raw f) (df_row i 0) (Some target) ;;
       let windows_ds := mk_WindowsDataset (windower base_ds) (base_info base_ds) in
       Ok (fst acc ++ [windows_ds], snd acc ++ [i]))
    ids acc
  = (fs <- map_m (py_index files) ids ;;
     Ok (fst acc ++ map (tuh_windows windower target) (combine ids fs),
         snd acc ++ map (fun kf => tuh_table [kf]) (combine ids fs))).
Proof.
  intros Ht.
  match goal with |- for_each ?b _ _ = _ => remember b as body eqn:Hb end.
  assert (Hstep : forall acc k,
            body acc k
            = (f <- py_index files k ;;
               Ok (fst acc ++ [tuh_windows windower target (k, f)],
                   snd acc ++ [tuh_table [(k, f)]]))).
  { intros a k. subst body. cbv beta.
    destruct (py_index files k) as [f|e]; [|reflexivity].
    cbn [bind]. unfold BaseDataset_init.
    change (map fst (df_row _ 0)) with (@tuh_columns).
    rewrite Ht. reflexivity. }
  clear Hb. revert acc. induction ids as [|k ids IH]; intros acc.
  - simpl. rewrite !app_nil_r. now destruct acc.
  - cbn [for_each map_m]. rewrite Hstep.
    destruct (py_index files k) as [f|e]; [|reflexivity].
    cbn [bind]. rewrite IH. cbn [fst snd].
    destruct (map_m (py_index files) ids) as [fs|e]; [|reflexivity].
    cbn [bind combine map]. rewrite <- !app_assoc. reflexivity.
Qed.

Lemma concat_tuh_frames_from (pre rest : list (Z * edf_file raw)) :
  fold_left (fun acc g => mk_df (df_index acc ++ df_index g)
                                (append_columns (df_columns acc) (df_columns g)))
            (map (fun kf => tuh_table [kf]) rest) (tuh_table pre)
  = tuh_table (pre ++ rest).
Proof.
  revert pre. induction rest as [|kf rest IH]; intros pre.
  - now rewrite app_nil_r.
  - cbn [map fold_left].
    replace (mk_df (df_index (tuh_table pre) ++ df_index (tuh_table [kf]))
                   (append_columns (df_columns (tuh_table pre))
                                   (df_columns (tuh_table [kf]))))
      with (tuh_table (pre ++ [kf])).
    + rewrite IH. now rewrite <- app_assoc.
    + unfold tuh_table. cbn [df_index df_columns append_columns map].
      now rewrite !map_app.
Qed.

Lemma concat_tuh_frames (kfs : list (Z * edf_file raw)) :
  kfs <> [] -> concat_frames (map (fun kf => tuh_table [kf]) kfs) = tuh_table kfs.
Proof.
  destruct kfs as [|kf kfs]; [congruence|]. intros _.
  cbn [map concat_frames]. apply (concat_tuh_frames_from [kf] kfs).
Qed.

Lemma tuh_init_unfold (subject_ids : option (list Z)) :
  files <> [] ->
  existsb (String.eqb target) tuh_columns = true ->
  TUHAbnormal_init windower files subject_ids target
  = (fs <- map_m (py_index files) (ids_read files subject_ids) ;;
     ConcatDataset_init
       (map (tuh_windows windower target) (combine (ids_read files subject_ids) fs))
       (concat_frames (map (fun kf => tuh_table [kf])
                           (combine (ids_read files subject_ids) fs)))).
Proof.
  intros Hf Ht. unfold TUHAbnormal_init.
  destruct (Z.ltb_spec 0 (Z.of_nat (length files))) as [_|H];
    [|destruct files; [congruence | simpl in H; lia]].
  cbn [assert bind]. fold (ids_read files subject_ids).
  rewrite tuh_loop by exact Ht. cbn [fst snd app].
  destruct (map_m (py_index files) (ids_read files subject_ids)); reflexivity.
Qed.

Lemma py_index_ok_or_index_error {A : Type} (l : list A) (k : Z) :
  is_ok (py_index l k) = true \/ py_index l k = Raise IndexError.
Proof.
  unfold py_index. destruct (_ || _); [now right|].
  destruct (nth_error l _); [now left | now right].
Qed.

Lemma map_m_py_index_ok {A : Type} (l : list A) (ids : list Z) :
  Forall (fun k => - Z.of_nat (length l) <= k < Z.of_nat (length l)) ids ->
  exists xs, map_m (py_index l) ids = Ok xs /\ length xs = length ids.
Proof.
  intros H. destruct (map_m_total (py_index l) ids) as [xs Hxs].
  - intros k Hk. rewrite Forall_forall in H. specialize (H k Hk).
    destruct (Z.lt_ge_cases k 0).
    + destruct (py_index_wraps l k) as [a [_ ->]]; [lia | eauto].
    + destruct (py_index_in_range l k) as [a [_ ->]]; [lia | eauto].
  - exists xs. split; [exact Hxs | now apply map_m_length in Hxs].
Qed.

Lemma tuh_init_ok (subject_ids : option (list Z)) :
  files <> [] ->
  existsb (String.eqb target) tuh_columns = true ->
  ids_read files subject_ids <> [] ->
  Forall (fun k => - Z.of_nat (length files) <= k < Z.of_nat (length files))
         (ids_read files subject_ids) ->
  exists fs,
    map_m (py_index files) (ids_read files subject_ids) = Ok fs
    /\ length fs = length (ids_read files subject_ids)
    /\ TUHAbnormal_init windower files subject_ids target
       = Ok (mk_ConcatDataset
               (map (tuh_windows windower target) (combine (ids_read files subject_ids) fs))
               (cumsum (map (tuh_windows windower target)
                            (combine (ids_read files subject_ids) fs)))
               (tuh_table (combine (ids_read files subject_ids) fs))).
Proof.
  intros Hf Ht Hne Hv.
  destruct (map_m_py_index_ok files _ Hv) as [fs [Hfs Hl]].
  exists fs. split; [exact Hfs|]. split; [exact Hl|].
  rewrite tuh_init_unfold by assumption. rewrite Hfs. cbn [bind].
  assert (Hc : combine (ids_read files subject_ids) fs <> []).
  { destruct (ids_read files subject_ids); [congruence|].
    destruct fs; [discriminate | discriminate]. }
  rewrite concat_tuh_frames by exact Hc.
  unfold ConcatDataset_init.
  destruct (Z.ltb_spec 0 (Z.of_nat (length (map (tuh_windows windower target)
                                (combine (ids_read files subject_ids) fs))))) as [_|H].
  - reflexivity.
  - rewrite length_map in H. destruct (combine _ fs); [congruence | simpl in H; lia].
Qed.

Lemma tuh_init_bad_target (subject_ids : option (list Z)) (k : Z) (rest : list Z) :
  files <> [] ->
  existsb (String.eqb target) tuh_columns = false ->
  ids_read files subject_ids = k :: rest ->
  - Z.of_nat (length files) <= k < Z.of_nat (length files) ->
  TUHAbnormal_init windower files subject_ids target = Raise AssertionError.
Proof.
  intros Hf Ht Hids Hk. unfold TUHAbnormal_init.
  destruct (Z.ltb_spec 0 (Z.of_nat (length files))) as [_|H];
    [|destruct files; [congruence | simpl in H; lia]].
  cbn [assert bind]. fold (ids_read files subject_ids). rewrite Hids. cbn [for_each].
  assert (Hok : exists f, py_index files k = Ok f).
  { destruct (Z.lt_ge_cases k 0).
    - destruct (py_index_wraps files k) as [a [_ ->]]; [lia | eauto].
    - destruct (py_index_in_range files k) as [a [_ ->]]; [lia | eauto]. }
  destruct Hok as [f ->]. cbn [bind]. unfold BaseDataset_init.
  change (map fst (df_row _ 0)) with (@tuh_columns).
  now rewrite Ht.
Qed.

(** X11. [TUHAbnormal.__init__]: when the search found no file it raises
    [NameError].  Over the [n >= 1] files the search returned: an
    empty list of subject ids fails the assertion of [ConcatDataset]; a
    target that is none of the five columns fails the assertion of
    [BaseDataset] at the first subject; a subject id outside [[-n, n)]
    raises [IndexError].  Otherwise the dataset has one WindowsDataset per
    subject id, in the order given, built from the file at that position
    and carrying that file's metadata, and the table has one row per
    subject id whose index label is the subject id itself. *)
Theorem tuh_init_spec (subject_ids : option (list Z)) :
  (files = [] ->
   TUHAbnormal_init windower files subject_ids target = Raise NameError)
  /\ (files <> [] -> subject_ids = Some [] ->
      TUHAbnormal_init windower files subject_ids target = Raise AssertionError)
  /\ (files <> [] -> ~ In target tuh_columns ->
      forall k rest, ids_read files subject_ids = k :: rest ->
        - Z.of_nat (length files) <= k < Z.of_nat (length files) ->
        TUHAbnormal_init windower files subject_ids target = Raise AssertionError)
  /\ (files <> [] -> In target tuh_columns ->
      (exists k, In k (ids_read files subject_ids)
                 /\ (k < - Z.of_nat (length files) \/ Z.of_nat (length files) <= k)) ->
      TUHAbnormal_init windower files subject_ids target = Raise IndexError)
  /\ (files <> [] -> In target tuh_columns ->
      ids_read files subject_ids <> [] ->
      Forall (fun k => - Z.of_nat (length files) <= k < Z.of_nat (length files))
             (ids_read files subject_ids) ->
      exists fs ds,
        map_m (py_index files) (ids_read files subject_ids) = Ok fs
        /\ TUHAbnormal_init windower files subject_ids target = Ok ds
        /\ datasets ds
           = map (tuh_windows windower target) (combine (ids_read files subject_ids) fs)
        /\ cumulative_sizes ds = cumsum (datasets ds)
        /\ info ds = tuh_table (combine (ids_read files subject_ids) fs)
        /\ df_index (info ds) = ids_read files subject_ids).
Proof.
  assert (Hin : In target tuh_columns ->
                existsb (String.eqb target) tuh_columns = true).
  { intros H. apply existsb_exists. exists target. split; [exact H|].
    apply String.eqb_refl. }
  split; [intros ->; reflexivity|].
  split; [|split; [|split]].
  - intros Hf ->. unfold TUHAbnormal_init.
    destruct (Z.ltb_spec 0 (Z.of_nat (length files))) as [_|H];
      [reflexivity | destruct files; [congruence | simpl in H; lia]].
  - intros Hf Ht k rest Hids Hk.
    apply (tuh_init_bad_target subject_ids k rest); try assumption.
    destruct (existsb (String.eqb target) tuh_columns) eqn:E; [|reflexivity].
    exfalso. apply Ht. apply existsb_exists in E. destruct E as [c [Hc E]].
    apply String.eqb_eq in E. now subst.
  - intros Hf Ht Hbad. rewrite tuh_init_unfold by auto.
    rewrite (map_m_first_raise (py_index files) (ids_read files subject_ids) IndexError).
    + reflexivity.
    + destruct Hbad as [k [Hk Hr]]. exists k. split; [exact Hk|].
      now apply py_index_out_of_range.
    + intros k _. apply py_index_ok_or_index_error.
  - intros Hf Ht Hne Hv.
    destruct (tuh_init_ok subject_ids Hf (Hin Ht) Hne Hv) as (fs & Hfs & Hl & ->).
    exists fs. eexists. split; [exact Hfs|]. split; [reflexivity|].
    cbn [datasets cumulative_sizes info]. repeat split.
    unfold tuh_table. cbn [df_index]. now apply map_fst_combine.
Qed.

(** X13. For a TUH dataset built over all its files, two or more of them, the
    split by a column of the table returns one index set per distinct value
    of the column (named by the value, names sorted), and the index sets
    taken together are a rearrangement of [[0, total)]: here the index
    labels of the table are the positions of the recordings. *)
Theorem tuh_default_split_partition (ds : ConcatDataset signal) (p : string) :
  TUHAbnormal_init windower files None target = Ok ds ->
  (2 <= length files)%nat ->
  df_contains (info ds) (Some p) = true ->
  exists vals r,
    df_getitem (info ds) p = Ok vals
    /\ split ds (Some p) None = Ok r
    /\ map fst r = sort_cells (unique vals)
    /\ Permutation (flat_map (fun s : cell * Subset signal =>
                                nd_data (sub_indices (snd s))) r)
                   (py_range 0 (ConcatDataset_len ds)).
Proof.
  intros Hinit Hn Hp.
  assert (Hf : files <> []) by (destruct files; [simpl in Hn; lia | congruence]).
  assert (Hids : ids_read files None = py_range 0 (Z.of_nat (length files)))
    by reflexivity.
  assert (Hlen : length (ids_read files None) = length files).
  { rewrite Hids, length_py_range. lia. }
  assert (Hv : Forall (fun k => - Z.of_nat (length files) <= k < Z.of_nat (length files))
                      (ids_read files None)).
  { apply Forall_forall. intros k Hk. rewrite Hids in Hk.
    apply in_py_range in Hk. lia. }
  assert (Hne : ids_read files None <> []).
  { intros E. rewrite E in Hlen. simpl in Hlen. lia. }
  destruct (existsb (String.eqb target) tuh_columns) eqn:Ht.
  - destruct (tuh_init_ok None Hf Ht Hne Hv) as (fs & Hfs & Hl & Hok).
    rewrite Hok in Hinit. inversion Hinit as [Hds]. clear Hinit Hok. subst ds.
    assert (Hc : length (combine (ids_read files None) fs) = length files).
    { rewrite length_combine, Hl, Hlen. lia. }
    rewrite Hids in Hl, Hc. clear Hfs Hv Hne Hlen Hids.
    remember (py_range 0 (Z.of_nat (length files))) as ids eqn:Hids in *.
    apply field_split_rearranges.
    + reflexivity.
    + cbn [info datasets]. unfold tuh_table. cbn [df_index].
      rewrite (map_fst_combine ids fs) by (symmetry; exact Hl).
      now rewrite length_map, Hc.
    + cbn [info datasets]. unfold tuh_table. cbn [df_columns].
      rewrite length_map.
      intros k vals [H|[H|[H|[H|[H|[]]]]]]; inversion H; subst;
        now rewrite length_map.
    + cbn [datasets]. rewrite length_map, Hc. exact Hn.
    + exact Hp.
  - destruct (ids_read files None) as [|k rest] eqn:E; [congruence|].
    rewrite (tuh_init_bad_target None k rest Hf Ht E) in Hinit; [discriminate|].
    rewrite Forall_forall in Hv. apply Hv. now left.
Qed.

End TuhInit.

(** ** The splits by a field on concrete datasets *)

Lemma split_by_field_partition_witness :
  exists ds,
    MOABBDataset_init ex_windower ex_moabb = Ok ds
    /\ (2 <= length (datasets ds))%nat
    /\ df_contains (info ds) (Some "session"%string) = true
    /\ exists vals r,
         df_getitem (info ds) "session" = Ok vals
         /\ split ds (Some "session"%string) None = Ok r
         /\ map fst r = sort_cells (unique vals)
         /\ Permutation (flat_map (fun s : cell * Subset unit =>
                                     nd_data (sub_indices (snd s))) r)
                        (py_range 0 (ConcatDataset_len ds)).
Proof.
  eexists. split; [vm_compute; reflexivity|].
  split; [vm_compute; lia|]. split; [reflexivity|].
  apply (split_by_field_partition ex_windower ex_moabb);
    [vm_compute; reflexivity | vm_compute; lia | reflexivity].
Defined.

Lemma tuh_default_split_partition_witness :
  exists ds,
    TUHAbnormal_init ex_windower ex_files None "pathological" = Ok ds
    /\ (2 <= length ex_files)%nat
    /\ df_contains (info ds) (Some "session"%string) = true
    /\ exists vals r,
         df_getitem (info ds) "session" = Ok vals
         /\ split ds (Some "session"%string) None = Ok r
         /\ map fst r = sort_cells (unique vals)
         /\ Permutation (flat_map (fun s : cell * Subset unit =>
                                     nd_data (sub_indices (snd s))) r)
                        (py_range 0 (ConcatDataset_len ds)).
Proof.
  eexists. split; [vm_compute; reflexivity|].
  split; [vm_compute; lia|]. split; [reflexivity|].
  apply (tuh_default_split_partition ex_windower ex_files "pathological");
    [vm_compute; reflexivity | vm_compute; lia | reflexivity].
Defined.

(* ================================================================== *)
(** * Annotations from events *)

Section EventsFacts.
Import Events.

Lemma insert_unique_in (x y : Z) (l : list Z) :
  In x (insert_unique y l) <-> x = y \/ In x l.
Proof.
  induction l as [|z l IH]; simpl; [intuition|].
  destruct (Z.ltb_spec y z); [simpl; intuition|].
  destruct (Z.eqb_spec y z); simpl.
  - subst. intuition.
  - rewrite IH. intuition.
Qed.

Lemma np_unique_in (x : Z) (l : list Z) : In x (np_unique l) <-> In x l.
Proof.
  induction l as [|y l IH]; simpl; [tauto|].
  rewrite insert_unique_in, IH. intuition.
Qed.

Lemma insert_unique_sorted (x : Z) (l : list Z) :
  StronglySorted Z.lt l -> StronglySorted Z.lt (insert_unique x l).
Proof.
  induction l as [|y l IH]; intros Hs; simpl.
  - repeat constructor.
  - inversion Hs as [|? ? Hs' Hall]; subst.
    destruct (Z.ltb_spec x y).
    + constructor; [exact Hs|]. constructor; [exact H|].
      eapply Forall_impl; [|exact Hall]. intros z Hz. simpl in Hz. lia.
    + destruct (Z.eqb_spec x y); [exact Hs|].
      constructor; [now apply IH|].
      apply Forall_forall. intros z Hz. apply insert_unique_in in Hz.
      destruct Hz as [->|Hz]; [lia|].
      rewrite Forall_forall in Hall. now apply Hall.
Qed.

Lemma np_unique_sorted (l : list Z) : StronglySorted Z.lt (np_unique l).
Proof.
  induction l as [|y l IH]; simpl; [constructor | now apply insert_unique_sorted].
Qed.

Lemma sorted_filter (p : Z -> bool) (l : list Z) :
  StronglySorted Z.lt l -> StronglySorted Z.lt (filter p l).
Proof.
  induction 1 as [|a l Hs IH Hall]; simpl; [constructor|].
  destruct (p a); [|exact IH].
  constructor; [exact IH|].
  apply Forall_forall. intros z Hz. apply filter_In in Hz.
  rewrite Forall_forall in Hall. now apply Hall.
Qed.

Section IntDictFacts.
Context {V : Type}.

Lemma get_setitem (d : list (Z * V)) (k : Z) (v : V) (c : Z) :
  get (setitem d k v) c = if c =? k then Some v else get d c.
Proof.
  induction d as [|[k' v'] d IH]; simpl.
  - reflexivity.
  - destruct (Z.eqb_spec k k') as [->|Hk]; simpl.
    + destruct (Z.eqb_spec c k'); reflexivity.
    + rewrite IH. destruct (Z.eqb_spec c k'), (Z.eqb_spec c k); try reflexivity.
      congruence.
Qed.

Lemma keys_setitem_fresh (d : list (Z * V)) (k : Z) (v : V) :
  ~ In k (map fst d) -> map fst (setitem d k v) = map fst d ++ [k].
Proof.
  induction d as [|[k' v'] d IH]; simpl; intros Hk; [reflexivity|].
  destruct (Z.eqb_spec k k') as [->|Hne]; [tauto|].
  simpl. f_equal. apply IH. tauto.
Qed.

Lemma get_dict_zip_from (f : Z -> V) (codes : list Z) (d : list (Z * V)) (c : Z) :
  get (fold_left (fun d kv => setitem d (fst kv) (snd kv))
                 (combine codes (map f codes)) d) c
  = if existsb (Z.eqb c) codes then Some (f c) else get d c.
Proof.
  revert d. induction codes as [|k codes IH]; intros d; simpl; [reflexivity|].
  rewrite IH, get_setitem.
  destruct (Z.eqb_spec c k) as [->|Hne]; simpl.
  - now destruct (existsb (Z.eqb k) codes).
  - reflexivity.
Qed.

Lemma get_dict_zip (f : Z -> V) (codes : list Z) (c : Z) :
  get (dict_zip codes (map f codes)) c
  = if existsb (Z.eqb c) codes then Some (f c) else None.
Proof. unfold dict_zip. now rewrite get_dict_zip_from. Qed.

End IntDictFacts.

Lemma existsb_eqb_in (c : Z) (l : list Z) :
  existsb (Z.eqb c) l = true <-> In c l.
Proof.
  rewrite existsb_exists. split.
  - intros [x [Hx E]]. apply Z.eqb_eq in E. now subst.
  - intros H. exists c. split; [exact H | apply Z.eqb_refl].
Qed.

(** The loop of [_select_events_based_on_id] over the event codes. *)
Section SelectLoop.
Variable func : Z -> option string.

Lemma get_select_loop (ids : list Z) (acc : list (Z * string)) (c : Z) :
  get (fold_left (select_step func) ids acc) c
  = match (if existsb (Z.eqb c) ids then func c else None) with
    | Some t => Some t
    | None => get acc c
    end.
Proof.
  revert acc. induction ids as [|k ids IH]; intros acc; simpl; [reflexivity|].
  rewrite IH. unfold select_step.
  destruct (Z.eqb_spec c k) as [->|Hne]; simpl.
  - destruct (existsb (Z.eqb k) ids); destruct (func k) as [t|] eqn:E;
      try reflexivity.
    now rewrite get_setitem, Z.eqb_refl.
  - destruct (existsb (Z.eqb c) ids); [destruct (func c)|]; try reflexivity;
      destruct (func k); try reflexivity; rewrite get_setitem;
      destruct (Z.eqb_spec c k); congruence.
Qed.

Lemma keys_select_loop (ids : list Z) (acc : list (Z * string)) :
  NoDup ids -> (forall k, In k ids -> ~ In k (map fst acc)) ->
  map fst (fold_left (select_step func) ids acc)
  = map fst acc ++ filter (fun c => match func c with Some _ => true | None => false end) ids.
Proof.
  revert acc. induction ids as [|k ids IH]; intros acc Hnd Hfresh; simpl.
  - now rewrite app_nil_r.
  - inversion Hnd as [|? ? Hk Hnd']; subst.
    unfold select_step at 2. destruct (func k) as [t|] eqn:E.
    + rewrite IH; [|exact Hnd'|].
      * rewrite keys_setitem_fresh by (apply Hfresh; now left).
        now rewrite <- app_assoc.
      * intros k' Hk'. rewrite keys_setitem_fresh by (apply Hfresh; now left).
        rewrite in_app_iff. intros [H|[H|[]]].
        -- apply (Hfresh k'); [now right | exact H].
        -- subst. contradiction.
    + apply IH; [exact Hnd'|]. intros k' Hk'. apply Hfresh. now right.
Qed.

End SelectLoop.

Lemma sorted_lt_NoDup (l : list Z) : StronglySorted Z.lt l -> NoDup l.
Proof.
  induction 1 as [|a l Hs IH Hall]; constructor; [|exact IH].
  intros Hin. rewrite Forall_forall in Hall. specialize (Hall a Hin). lia.
Qed.

(** Indexing a list at the positions where a test holds gives the
    elements for which it holds. *)
Lemma index_filtered {A : Type} (p : A -> bool) (pre rest : list A) :
  map_m (py_index (pre ++ rest))
        (map fst (filter (fun ie : Z * A => p (snd ie))
                         (enumerate_from (Z.of_nat (length pre)) rest)))
  = Ok (filter p rest).
Proof.
  revert pre. induction rest as [|a rest IH]; intros pre; [reflexivity|].
  cbn [enumerate_from filter snd].
  assert (E : pre ++ a :: rest = (pre ++ [a]) ++ rest) by now rewrite <- app_assoc.
  assert (Hn : Z.of_nat (length pre) + 1 = Z.of_nat (length (pre ++ [a]))).
  { rewrite length_app. simpl. lia. }
  specialize (IH (pre ++ [a])). rewrite <- E, <- Hn in IH.
  destruct (p a).
  - cbn [map fst map_m].
    destruct (py_index_in_range (pre ++ a :: rest) (Z.of_nat (length pre)))
      as [b [Hb ->]].
    { rewrite length_app. simpl. lia. }
    rewrite Nat2Z.id, nth_error_app2, Nat.sub_diag in Hb by lia.
    simpl in Hb. inversion Hb; subst b. cbn [bind]. now rewrite IH.
  - exact IH.
Qed.

Lemma filter_positions_sorted {A : Type} (p : Z * A -> bool) (l : list A) (i : Z) :
  StronglySorted Z.lt (map fst (filter p (enumerate_from i l))).
Proof.
  revert i. induction l as [|a l IH]; intros i; simpl; [constructor|].
  destruct (p (i, a)); [|apply IH].
  simpl. constructor; [apply IH|].
  apply Forall_forall. intros z Hz. apply in_map_iff in Hz.
  destruct Hz as [[z' b] [<- Hz]]. apply filter_In in Hz. destruct Hz as [Hz _].
  apply (in_map fst) in Hz. rewrite enumerate_from_fst in Hz.
  apply in_py_range in Hz. simpl in *. lia.
Qed.

Lemma in_enumerate_from {A : Type} (l : list A) (i k : Z) (a : A) :
  In (k, a) (enumerate_from i l)
  <-> i <= k /\ nth_error l (Z.to_nat (k - i)) = Some a.
Proof.
  revert i. induction l as [|b l IH]; intros i; simpl.
  - split; [tauto|]. intros [_ H]. now destruct (Z.to_nat (k - i)).
  - rewrite IH. split.
    + intros [H|[Hle Hn]].
      * inversion H; subst. rewrite Z.sub_diag. simpl. split; [lia | reflexivity].
      * split; [lia|]. replace (Z.to_nat (k - i)) with (S (Z.to_nat (k - (i + 1)))) by lia.
        exact Hn.
    + intros [Hle Hn]. destruct (Z.eq_dec k i) as [->|Hne].
      * rewrite Z.sub_diag in Hn. simpl in Hn. inversion Hn. now left.
      * right. split; [lia|].
        replace (Z.to_nat (k - i)) with (S (Z.to_nat (k - (i + 1)))) in Hn by lia.
        exact Hn.
Qed.

Lemma get_selected (func : Z -> option string) (events : list event) (c : Z) :
  get (fold_left (select_step func) (np_unique (map code_of events)) []) c
  = if existsb (Z.eqb c) (map code_of events) then func c else None.
Proof.
  rewrite get_select_loop. cbn [get].
  destruct (existsb (Z.eqb c) (np_unique (map code_of events))) eqn:E1;
    destruct (existsb (Z.eqb c) (map code_of events)) eqn:E2.
  - now destruct (func c).
  - apply existsb_eqb_in in E1. apply -> np_unique_in in E1.
    apply existsb_eqb_in in E1. congruence.
  - apply existsb_eqb_in in E2. apply <- np_unique_in in E2.
    apply existsb_eqb_in in E2. congruence.
  - reflexivity.
Qed.

Lemma get_selected_event (func : Z -> option string) (events : list event) (e : event) :
  In e events ->
  get (fold_left (select_step func) (np_unique (map code_of events)) []) (code_of e)
  = func (code_of e).
Proof.
  intros Hin. rewrite get_selected.
  replace (existsb (Z.eqb (code_of e)) (map code_of events)) with true; [reflexivity|].
  symmetry. apply existsb_eqb_in. now apply in_map.
Qed.

(** X14. [_select_events_based_on_id]: the selected positions are exactly the
    positions of the events whose code has a name, in ascending order; the
    returned dict holds each code that occurs among the events and has a
    name, once, in ascending order of the codes, with that name. *)
Theorem select_events_spec (events : list event) (event_desc : description) :
  let func := func_of event_desc in
  let event_sel := fst (_select_events_based_on_id events event_desc) in
  let event_desc_ := snd (_select_events_based_on_id events event_desc) in
  (forall i, In i event_sel
             <-> 0 <= i /\ exists e name, nth_error events (Z.to_nat i) = Some e
                                          /\ func (code_of e) = Some name)
  /\ StronglySorted Z.lt event_sel
  /\ map fst event_desc_
     = filter (fun c => match func c with Some _ => true | None => false end)
              (np_unique (map code_of events))
  /\ StronglySorted Z.lt (map fst event_desc_)
  /\ (forall c name, get event_desc_ c = Some name
                     <-> In c (map code_of events) /\ func c = Some name).
Proof.
  intros func event_sel event_desc_.
  unfold _select_events_based_on_id in event_sel, event_desc_.
  cbn [fst snd] in event_sel, event_desc_. fold func in event_sel, event_desc_.
  assert (Hkeys : map fst event_desc_
                  = filter (fun c => match func c with Some _ => true | None => false end)
                           (np_unique (map code_of events))).
  { unfold event_desc_. rewrite keys_select_loop.
    - reflexivity.
    - apply sorted_lt_NoDup, np_unique_sorted.
    - intros k _ []. }
  split; [|split; [|split; [|split]]].
  - intros i. unfold event_sel. rewrite in_map_iff. split.
    + intros [[k e] [<- Hin]]. apply filter_In in Hin. destruct Hin as [Hin Hc].
      apply in_enumerate_from in Hin. destruct Hin as [Hk Hn].
      cbn [fst snd] in *. rewrite Z.sub_0_r in Hn. split; [exact Hk|].
      unfold contains in Hc. fold event_desc_ in Hc. unfold event_desc_ in Hc.
      rewrite get_selected_event in Hc by (eapply nth_error_In; exact Hn).
      destruct (func (code_of e)) as [name|] eqn:E; [|discriminate]. eauto.
    + intros [Hi (e & name & Hn & Hf)]. exists (i, e). split; [reflexivity|].
      apply filter_In. split.
      * apply in_enumerate_from. now rewrite Z.sub_0_r.
      * cbn [snd]. unfold contains. fold event_desc_. unfold event_desc_.
        rewrite get_selected_event by (eapply nth_error_In; exact Hn).
        now rewrite Hf.
  - apply filter_positions_sorted.
  - exact Hkeys.
  - rewrite Hkeys. apply sorted_filter, np_unique_sorted.
  - intros c name. unfold event_desc_. rewrite get_selected.
    destruct (existsb (Z.eqb c) (map code_of events)) eqn:E.
    + apply existsb_eqb_in in E. tauto.
    + split; [discriminate|]. intros [Hin _]. apply existsb_eqb_in in Hin. congruence.
Qed.

Lemma checked_agrees (event_desc : event_desc) (events : list event)
  (checked : description) (c : Z) :
  _check_event_description event_desc events = Ok checked ->
  In c (map code_of events) ->
  func_of checked c = described event_desc c.
Proof.
  destruct event_desc as [|d|codes| |f|]; cbn; intros H Hin; inversion H; subst;
    cbn [func_of]; try reflexivity.
  - rewrite get_dict_zip.
    replace (existsb (Z.eqb c) (np_unique (map code_of events))) with true;
      [reflexivity|].
    symmetry. now apply existsb_eqb_in, np_unique_in.
  - rewrite get_dict_zip. now destruct (existsb (Z.eqb c) codes).
Qed.

Lemma named_selected (g : Z -> option string) (event_desc_ : list (Z * string))
  (l : list event) :
  (forall e, In e l -> get event_desc_ (code_of e) = g (code_of e)) ->
  let named := flat_map (fun e => match g (code_of e) with
                                  | Some name => [(e, name)]
                                  | None => []
                                  end) l in
  filter (fun e => contains event_desc_ (code_of e)) l = map fst named
  /\ map_m (fun e => getitem event_desc_ (code_of e)) (map fst named)
     = Ok (map snd named).
Proof.
  induction l as [|e l IH]; intros Hget; [split; reflexivity|].
  destruct IH as [IH1 IH2]; [intros e' He'; apply Hget; now right|].
  cbn zeta in *. cbn [flat_map filter]. unfold contains at 1.
  rewrite (Hget e (or_introl eq_refl)).
  destruct (g (code_of e)) as [name|] eqn:E; cbn [app map fst snd map_m].
  - split; [now rewrite IH1|].
    unfold getitem at 1. rewrite (Hget e (or_introl eq_refl)), E.
    cbn [bind]. now rewrite IH2.
  - split; assumption.
Qed.

Section AnnotateFacts.
Context {time : Type}.
Variable onset_at : Z -> time.
Variable zero : time.

(** X15. [annotations_from_events] raises [ValueError] for a description that
    is none of the supported kinds and otherwise returns, for every events
    array: one annotation per event whose code has a name, in the order of
    the events, with the onset of that event, duration zero and the name as
    description.  The look-up of a name never raises [KeyError].  Without a
    description every event is annotated with its code as a string. *)
Theorem annotations_from_events_spec (events : list event) (event_desc : event_desc) :
  let named := named_events event_desc events in
  match event_desc with
  | DescNested | DescOther =>
      annotations_from_events onset_at zero events event_desc = Raise ValueError
  | _ =>
      annotations_from_events onset_at zero events event_desc
      = Ok (mk_annotations
              (map (fun en : event * string => onset_at (sample_of (fst en))) named)
              (map (fun _ : event * string => zero) named)
              (map snd named))
  end
  /\ named_events DescNone events = map (fun e => (e, str (code_of e))) events.
Proof.
  intros named. split.
  - assert (Hgen : forall checked,
              _check_event_description event_desc events = Ok checked ->
              annotations_from_events onset_at zero events event_desc
              = Ok (mk_annotations
                      (map (fun en : event * string => onset_at (sample_of (fst en))) named)
                      (map (fun _ : event * string => zero) named)
                      (map snd named))).
    { intros checked Hch. unfold annotations_from_events. rewrite Hch. cbn [bind].
      unfold _select_events_based_on_id.
      set (event_desc_ := fold_left _ _ _).
      pose proof (index_filtered (fun e => contains event_desc_ (code_of e)) [] events)
        as Hidx.
      cbn [app length Z.of_nat] in Hidx. unfold enumerate. rewrite Hidx. cbn [bind].
      destruct (named_selected (described event_desc) event_desc_ events) as [H1 H2].
      { intros e He. unfold event_desc_. rewrite get_selected_event by exact He.
        apply (checked_agrees event_desc events); [exact Hch | now apply in_map]. }
      cbn zeta in H1, H2. fold (named_events event_desc events) in H1, H2.
      fold named in H1, H2. rewrite H1, H2. cbn [bind].
      now rewrite !map_map. }
    destruct event_desc; try reflexivity; eapply Hgen; reflexivity.
  - unfold named_events. cbn [described].
    induction events as [|e events IH]; [reflexivity|].
    cbn [flat_map map app]. now rewrite IH.
Qed.

End AnnotateFacts.

End EventsFacts.

(* ================================================================== *)
(** * The natural sorting key *)

Section NaturalKeyFacts.
Import NaturalKey.

Lemma ascii_not_superscript (c : ascii) :
  (nat_of_ascii c <? 128)%nat = true -> is_superscript c = false.
Proof.
  unfold is_superscript. intros H. apply Nat.ltb_lt in H.
  destruct (Nat.eqb_spec (nat_of_ascii c) 178); [lia|].
  destruct (Nat.eqb_spec (nat_of_ascii c) 179); [lia|].
  destruct (Nat.eqb_spec (nat_of_ascii c) 185); [lia | reflexivity].
Qed.

Lemma superscript_not_decimal (c : ascii) :
  is_superscript c = true -> is_decimal c = false.
Proof.
  unfold is_superscript, is_decimal. intros H.
  apply orb_true_iff in H. destruct H as [H|H];
    [apply orb_true_iff in H; destruct H as [H|H]|];
    apply Nat.eqb_eq in H; rewrite H; reflexivity.
Qed.

Lemma isdigit_text (text : list ascii) :
  is_ascii text = true ->
  forallb (fun c => negb (is_decimal c)) text = true ->
  isdigit text = false.
Proof.
  destruct text as [|c text]; [reflexivity|]. cbn [is_ascii forallb isdigit].
  intros Ha Hd. apply andb_true_iff in Ha, Hd. destruct Ha as [Ha _], Hd as [Hd _].
  apply negb_true_iff in Hd. now rewrite Hd, (ascii_not_superscript c Ha).
Qed.

Lemma key_of_run (run : list ascii) :
  run <> [] -> forallb is_decimal run = true ->
  (if isdigit run then (n <- int run ;; Ok (Some n)) else Ok None)
  = Ok (Some (fold_left (fun acc c => 10 * acc + (Z.of_nat (nat_of_ascii c) - 48))
                        run 0)).
Proof.
  intros Hne Hd.
  assert (Hi : isdigit run = true).
  { destruct run as [|c run]; [congruence|]. unfold isdigit.
    apply forallb_forall. intros x Hx. rewrite forallb_forall in Hd.
    now rewrite (Hd x Hx). }
  rewrite Hi. unfold int. now rewrite Hd.
Qed.

Lemma forallb_snoc {A : Type} (p : A -> bool) (l : list A) (a : A) :
  forallb p l = true -> p a = true -> forallb p (l ++ [a]) = true.
Proof. intros Hl Ha. rewrite forallb_app, Hl. simpl. now rewrite Ha. Qed.

Lemma natural_key_from (s : list ascii) :
  is_ascii s = true ->
  (forall text,
      is_ascii text = true ->
      forallb (fun c => negb (is_decimal c)) text = true ->
      map_m (fun split => if isdigit split
                          then (n <- int split ;; Ok (Some n))
                          else Ok None)
            (split_from (inl text) s)
      = Ok (key_of_numbers (numbers_from None s)))
  /\ (forall run,
         run <> [] -> forallb is_decimal run = true ->
         map_m (fun split => if isdigit split
                             then (n <- int split ;; Ok (Some n))
                             else Ok None)
               (split_from (inr run) s)
         = Ok (flat_map (fun n => [Some n; None])
                 (numbers_from
                    (Some (fold_left (fun acc c => 10 * acc + (Z.of_nat (nat_of_ascii c) - 48))
                                     run 0)) s))).
Proof.
  induction s as [|c s IH]; intros Hs.
  - split.
    + intros text Ha Hd. cbn [split_from map_m numbers_from].
      now rewrite (isdigit_text text Ha Hd).
    + intros run Hne Hd. cbn [split_from map_m numbers_from].
      now rewrite (key_of_run run Hne Hd).
  - cbn [is_ascii forallb] in Hs. apply andb_true_iff in Hs. destruct Hs as [Hc Hs].
    destruct (IH Hs) as [IHt IHr]. split.
    + intros text Ha Hd. cbn [split_from numbers_from]. destruct (is_decimal c) eqn:Ec.
      * cbn [map_m]. rewrite (isdigit_text text Ha Hd). cbn [bind].
        rewrite (IHr [c]); [reflexivity | discriminate | simpl; now rewrite Ec].
      * apply IHt.
        -- apply forallb_snoc; assumption.
        -- apply forallb_snoc; [exact Hd | now rewrite Ec].
    + intros run Hne Hd. cbn [split_from numbers_from]. destruct (is_decimal c) eqn:Ec.
      * rewrite IHr; [|now destruct run | now apply forallb_snoc].
        now rewrite fold_left_app.
      * cbn [map_m]. rewrite (key_of_run run Hne Hd). cbn [bind].
        rewrite (IHt [c]); [reflexivity | simpl; now rewrite Hc | simpl; now rewrite Ec].
Qed.

Lemma natural_key_numbers (s : list ascii) :
  is_ascii s = true -> _natural_key s = Ok (key_of_numbers (numbers s)).
Proof.
  intros Hs. destruct (natural_key_from s Hs) as [H _].
  apply (H []); reflexivity.
Qed.

Lemma list_lt_numbers (ns ms : list Z) :
  list_lt (flat_map (fun n => [Some n; None]) ns)
          (flat_map (fun n => [Some n; None]) ms)
  = Ok (lex_lt ns ms).
Proof.
  revert ms. induction ns as [|n ns IH]; intros [|m ms]; try reflexivity.
  cbn [flat_map app list_lt lex_lt].
  destruct (n =? m); [apply IH | reflexivity].
Qed.

(** X16. The key of an ASCII string is [None] followed by each number
    written in the string (the value of each maximal run of decimal digits,
    from left to right) and [None]; so the keys of any two ASCII strings can
    be compared, which never raises, and the comparison is the lexicographic
    order of the numbers of the two strings: the text between the numbers
    plays no part. *)
Theorem natural_key_order (s t : list ascii) :
  is_ascii s = true -> is_ascii t = true ->
  _natural_key s = Ok (key_of_numbers (numbers s))
  /\ _natural_key t = Ok (key_of_numbers (numbers t))
  /\ (k1 <- _natural_key s ;; k2 <- _natural_key t ;; list_lt k1 k2)
     = Ok (lex_lt (numbers s) (numbers t)).
Proof.
  intros Hs Ht.
  pose proof (natural_key_numbers s Hs) as Hks.
  pose proof (natural_key_numbers t Ht) as Hkt.
  split; [exact Hks|]. split; [exact Hkt|].
  rewrite Hks, Hkt. cbn [bind key_of_numbers list_lt]. apply list_lt_numbers.
Qed.

Lemma split_text (s text : list ascii) :
  forallb (fun c => negb (is_decimal c)) s = true ->
  split_from (inl text) s = [text ++ s].
Proof.
  revert text. induction s as [|c s IH]; intros text Hd.
  - now rewrite app_nil_r.
  - cbn [forallb] in Hd. apply andb_true_iff in Hd. destruct Hd as [Hc Hd].
    apply negb_true_iff in Hc. cbn [split_from]. rewrite Hc, IH by exact Hd.
    now rewrite <- app_assoc.
Qed.

(** X17. A string that consists of superscript digits only passes [isdigit] but
    is no literal of an integer: the key raises [ValueError]. *)
Theorem natural_key_superscripts (s : list ascii) :
  s <> [] -> forallb is_superscript s = true ->
  _natural_key s = Raise ValueError.
Proof.
  intros Hne Hs. unfold _natural_key, re_split_digits.
  rewrite split_text.
  - cbn [app map_m].
    assert (Hi : isdigit s = true).
    { destruct s as [|c s]; [congruence|]. unfold isdigit.
      apply forallb_forall. intros x Hx. rewrite forallb_forall in Hs.
      rewrite (Hs x Hx). apply orb_true_r. }
    rewrite Hi. unfold int.
    destruct s as [|c s]; [congruence|]. cbn [forallb] in *.
    apply andb_true_iff in Hs. destruct Hs as [Hc _].
    now rewrite (superscript_not_decimal c Hc).
  - apply forallb_forall. intros x Hx. rewrite forallb_forall in Hs.
    now rewrite (superscript_not_decimal x (Hs x Hx)).
Qed.

Lemma natural_key_order_witness :
  is_ascii (list_ascii_of_string "rec2_t10.edf") = true
  /\ is_ascii (list_ascii_of_string "rec10_t3.edf") = true
  /\ _natural_key (list_ascii_of_string "rec2_t10.edf")
     = Ok [None; Some 2; None; Some 10; None]
  /\ _natural_key (list_ascii_of_string "rec10_t3.edf")
     = Ok [None; Some 10; None; Some 3; None]
  /\ (k1 <- _natural_key (list_ascii_of_string "rec2_t10.edf") ;;
      k2 <- _natural_key (list_ascii_of_string "rec10_t3.edf") ;;
      list_lt k1 k2)
     = Ok true.
Proof.
  split; [reflexivity|]. split; [reflexivity|].
  exact (natural_key_order (list_ascii_of_string "rec2_t10.edf")
                           (list_ascii_of_string "rec10_t3.edf") eq_refl eq_refl).
Defined.

Lemma natural_key_superscripts_witness :
  [ascii_of_nat 178] <> [] /\ forallb is_superscript [ascii_of_nat 178] = true
  /\ _natural_key [ascii_of_nat 178] = Raise ValueError.
Proof.
  assert (Hne : [ascii_of_nat 178] <> []) by discriminate.
  split; [exact Hne|]. split; [reflexivity|].
  exact (natural_key_superscripts [ascii_of_nat 178] Hne eq_refl).
Defined.

End NaturalKeyFacts.
